(** * Opportunity detection and cycle-method classification

    A shallow embedding of the numeric core of the trading agent:
    [utils.py] (implied probability, arbitrage, cycle classifier, stake
    adjuster), [src/config.py] (thresholds and the profile table) and
    [src/analyzer.py] (the [TradingAnalyzer] class).

    Conventions of the embedding.
    - The analyzer (grouping and matching of quotes, the passes, the store
      of records, the profiles and the queries) is embedded over exact
      rationals [Q]: a number stands for its value, and the one place where
      the source distinguishes [int] from [float]
      ([isinstance(price, int)]) keeps the tag.  [float('inf')] is a
      constructor of its own there.
    - What the numeric functions return on Python's floats, rounding
      included, is stated on [Module Binary64], which has them operation by
      operation on binary64 values.
    - [x / y] raises [ZeroDivisionError] when [y] is zero: such code lives
      in the [option] monad and [None] is the raised exception.
    - Dictionaries that the source creates, copies and mutates are objects
      in a store and are handled through their locations. *)

From Stdlib Require Import QArith Qround Qabs ZArith List Lia Lqa Bool.
From stdpp Require Import gmap strings list.
From Stdlib Require Import Floats.

#[global] Set Warnings "-inexact-float".

(** ** Python arithmetic *)

Module Py.
Local Open Scope Q_scope.

Definition Qlt_bool (x y : Q) : bool := negb (Qle_bool y x).

(** [x / y] on numbers. *)
Definition div (x y : Q) : option Q :=
  if Qeq_bool y 0 then None else Some (x / y).

(** A float that may be [float('inf')]. *)
Inductive float_inf : Type :=
| Fin (q : Q)
| Inf.

(** [r <= n] for a possibly infinite [r] and a finite [n]. *)
Definition le_fin (r : float_inf) (n : Q) : bool :=
  match r with
  | Fin q => Qle_bool q n
  | Inf => false
  end.

(** Nearest integer, ties to the even one. *)
Definition round_half_even (q : Q) : Z :=
  let f := Qfloor q in
  match Qcompare (q - inject_Z f) (1 # 2) with
  | Lt => f
  | Gt => (f + 1)%Z
  | Eq => if Z.even f then f else (f + 1)%Z
  end.

(** [round(x, 2)]. *)
Definition round2 (x : Q) : Q :=
  inject_Z (round_half_even (x * 100)) / 100.

End Py.

(** ** config.py *)

Module Config.
Local Open Scope Q_scope.

Definition MAX_BACK_ODDS : Q := 1.06.
Definition MIN_LAY_ODDS : Q := 30.0.
Definition MIN_ODDS_DIFFERENCE : Q := 0.05.
Definition MIN_PROBABILITY : Q := 0.60.

(** One entry of [CYCLE_SETTINGS]: a dict with three keys. *)
Record Settings : Type := mkSettings {
  green_target : Q;
  max_red : Q;
  risk_reward_ratio : Q
}.

Definition default_settings : Settings := mkSettings 0.05 0.15 3.
Definition conservative_settings : Settings := mkSettings 0.03 0.09 3.
Definition aggressive_settings : Settings := mkSettings 0.10 0.30 3.
Definition custom_settings : Settings := mkSettings 0.05 0.15 3.

End Config.

(** ** utils.py *)

Module Utils.
Import Py.
Local Open Scope Q_scope.

Definition decimal_to_probability (odds : Q) : Q :=
  if Qlt_bool 0 odds then 1 / odds else 0.

Definition calculate_lay_liability (stake odds : Q) : Q := stake * (odds - 1).

Definition calculate_back_profit (stake odds : Q) : Q := stake * (odds - 1).

Definition identify_arbitrage (back_odds lay_odds : Q) : bool * Q :=
  let back_prob := decimal_to_probability back_odds in
  let lay_prob := decimal_to_probability lay_odds in
  let total_prob := back_prob + lay_prob in
  if Qlt_bool total_prob 0.98 then
    let margin := (1 - total_prob) * 100 in
    (true, margin)
  else (false, 0.0).

(** The dict returned by [calculate_cycle_opportunity]; after
    [update(stake_info)] the same dict carries the adjusted stake. *)
Record CycleInfo : Type := mkCycleInfo {
  is_valid : bool;
  type : string;
  odds : Q;
  green_percent : Q;
  red_percent : Q;
  stake : Q;
  green_value : Q;
  red_value : Q;
  risk_reward_ratio : float_inf
}.

Definition calculate_cycle_opportunity
    (odds : Q) (is_back : bool) (green_target max_red risk_reward_ratio : Q)
    : option CycleInfo :=
  let stake := 100 in
  '(green_percent, green_value, red_percent, red_value) ←
    (if is_back then
       Some (odds - 1, calculate_back_profit stake odds, 1.0, stake)
     else
       g ← div 1 odds;
       r ← div (odds - 1) odds;
       Some (g, stake, r, calculate_lay_liability stake odds));
  let actual_ratio :=
    if Qlt_bool 0 green_percent then Fin (red_percent / green_percent)
    else Inf in
  let is_valid :=
    if is_back then
      Qle_bool green_target green_percent
      && Qle_bool green_percent (green_target * 1.5)
      && le_fin actual_ratio risk_reward_ratio
    else
      Qle_bool green_target green_percent
      && Qle_bool red_percent max_red
      && le_fin actual_ratio risk_reward_ratio in
  Some {| is_valid := is_valid;
          type := if is_back then "BACK" else "LAY";
          odds := odds;
          green_percent := green_percent;
          red_percent := red_percent;
          stake := stake;
          green_value := green_value;
          red_value := red_value;
          risk_reward_ratio := actual_ratio |}.

(** The dict returned by [adjust_stake_for_cycle]. *)
Record StakeInfo : Type := mkStakeInfo {
  s_stake : Q;
  s_green_value : Q;
  s_red_value : Q;
  s_green_percent : Q;
  s_red_percent : Q
}.

Definition zero_stake : StakeInfo := mkStakeInfo 0 0 0 0 0.

Definition adjust_stake_for_cycle
    (odds : Q) (is_back : bool) (target_green_percent bankroll : Q)
    : option StakeInfo :=
  if is_back then
    let profit_multiplier := odds - 1 in
    if Qlt_bool 0 profit_multiplier then
      let stake := (target_green_percent * bankroll) / profit_multiplier in
      red_percent ← div stake bankroll;
      Some {| s_stake := stake;
              s_green_value := stake * profit_multiplier;
              s_red_value := stake;
              s_green_percent := target_green_percent;
              s_red_percent := red_percent |}
    else Some zero_stake
  else
    let stake := target_green_percent * bankroll in
    let red_value := calculate_lay_liability stake odds in
    red_percent ← div red_value bankroll;
    Some {| s_stake := stake;
            s_green_value := stake;
            s_red_value := red_value;
            s_green_percent := target_green_percent;
            s_red_percent := red_percent |}.

(** [bankroll: float = 1000]. *)
Definition default_bankroll : Q := 1000.

(** [cycle_info.update(stake_info)]: the five keys of [stake_info]
    overwrite those of [cycle_info], the other keys stay. *)
Definition update (ci : CycleInfo) (si : StakeInfo) : CycleInfo :=
  {| is_valid := is_valid ci;
     type := type ci;
     odds := odds ci;
     green_percent := s_green_percent si;
     red_percent := s_red_percent si;
     stake := s_stake si;
     green_value := s_green_value si;
     red_value := s_red_value si;
     risk_reward_ratio := risk_reward_ratio ci |}.

End Utils.

(** ** analyzer.py: the feed and the records built from it *)

Module Feed.
Local Open Scope Q_scope.

(** A price as the JSON feed delivers it.  The analyzer reads an [int] as
    American odds and a [float] as decimal odds. *)
Inductive number : Type :=
| PyInt (n : Z)
| PyFloat (q : Q).

(** The numeric value, by which Python compares an [int] and a [float]. *)
Definition value (x : number) : Q :=
  match x with
  | PyInt n => inject_Z n
  | PyFloat q => q
  end.

Record Outcome : Type := mkOutcome {
  name : string;
  price : number
}.

Record Market : Type := mkMarket {
  m_key : string;
  outcomes : list Outcome
}.

Record Bookmaker : Type := mkBookmaker {
  b_key : string;
  markets : list Market
}.

Record Event : Type := mkEvent {
  id : string;
  home_team : string;
  away_team : string;
  commence_time : string;
  bookmakers : list Bookmaker
}.

(** The dict appended to [all_odds[team]]. *)
Record Entry : Type := mkEntry {
  bookmaker : string;
  e_price : number;
  market_type : string
}.

End Feed.

Module Records.
Import Py Utils.

(** The ['back'] and ['lay'] sub-dicts of an opportunity. *)
Record BestQuote : Type := mkBestQuote {
  q_bookmaker : string;
  q_price : Q;
  q_probability : Q
}.

Record Recommendation : Type := mkRecommendation {
  action : option string;
  confidence : Q;
  strategy : option string;
  stake_recommendation : Q;
  potential_profit : Q;
  max_liability : Q
}.

(** The opportunity dict.  The keys ['potential_cycle'] and ['cycle_info']
    are optional in the source: [potential_cycle] is [true] when the key is
    present (its value is then [True]) and [cycle_info] is [None] when the
    key is absent. *)
Record Opportunity : Type := mkOpportunity {
  event_id : string;
  sport : string;
  o_home_team : string;
  o_away_team : string;
  team : string;
  o_commence_time : string;
  timestamp : Z;
  back : BestQuote;
  lay : BestQuote;
  difference_percent : Q;
  is_arbitrage : bool;
  arbitrage_margin : Q;
  recommendation : Recommendation;
  potential_cycle : bool;
  cycle_info : option CycleInfo
}.

(** [opp_copy["cycle_info"] = ci] on the dict value. *)
Definition set_cycle_info (ci : CycleInfo) (o : Opportunity) : Opportunity :=
  {| event_id := event_id o;
     sport := sport o;
     o_home_team := o_home_team o;
     o_away_team := o_away_team o;
     team := team o;
     o_commence_time := o_commence_time o;
     timestamp := timestamp o;
     back := back o;
     lay := lay o;
     difference_percent := difference_percent o;
     is_arbitrage := is_arbitrage o;
     arbitrage_margin := arbitrage_margin o;
     recommendation := recommendation o;
     potential_cycle := potential_cycle o;
     cycle_info := Some ci |}.

End Records.

(** ** analyzer.py: the pure steps of [TradingAnalyzer] *)

Module Steps.
Import Py Config Utils Feed Records.
Local Open Scope Q_scope.

Definition _american_to_decimal (american_odds : Z) : option Q :=
  if (0 <? american_odds)%Z then
    Some (inject_Z american_odds / 100 + 1)
  else
    d ← div 100 (inject_Z (Z.abs american_odds));
    Some (d + 1).

Definition _generate_recommendation
    (back_price lay_price back_prob : Q) (is_arbitrage : bool)
    : option Recommendation :=
  if Qle_bool back_price MAX_BACK_ODDS then
    Some {| action := Some "BACK";
            confidence := 0.90;
            strategy := Some "Método dos Ciclos (Back)";
            stake_recommendation := 100;
            potential_profit := round2 (calculate_back_profit 100 back_price);
            max_liability := 100 |}
  else if Qle_bool MIN_LAY_ODDS lay_price then
    Some {| action := Some "LAY";
            confidence := 0.90;
            strategy := Some "Método dos Ciclos (Lay)";
            stake_recommendation := 100;
            potential_profit := 100;
            max_liability := round2 (calculate_lay_liability 100 lay_price) |}
  else if is_arbitrage then
    let back_stake := 100 in
    ratio ← div back_price lay_price;
    let lay_stake := back_stake * ratio in
    let back_profit := calculate_back_profit back_stake back_price in
    let lay_liability := calculate_lay_liability lay_stake lay_price in
    let net_profit := back_profit - lay_liability in
    Some {| action := Some "BACK_AND_LAY";
            confidence := 0.95;
            strategy := Some "Arbitragem";
            stake_recommendation := 100;
            potential_profit := round2 net_profit;
            max_liability := round2 lay_liability |}
  else if Qle_bool MIN_PROBABILITY back_prob && Qlt_bool back_price lay_price then
    Some {| action := Some "BACK";
            confidence := back_prob;
            strategy := Some "Valor Esperado";
            stake_recommendation := 50;
            potential_profit := round2 (calculate_back_profit 50 back_price);
            max_liability := 50 |}
  else
    let lay_prob := decimal_to_probability lay_price in
    if Qle_bool MIN_PROBABILITY lay_prob then
      Some {| action := Some "LAY";
              confidence := lay_prob;
              strategy := Some "Lay de Valor";
              stake_recommendation := 50;
              potential_profit := 50;
              max_liability := round2 (calculate_lay_liability 50 lay_price) |}
    else
      Some {| action := Some "MONITOR";
              confidence := 0;
              strategy := Some "Aguardar";
              stake_recommendation := 0;
              potential_profit := 0;
              max_liability := 0 |}.

(** [all_odds] is a dict in insertion order whose values are lists:
    [if team not in all_odds: all_odds[team] = []] followed by
    [all_odds[team].append(e)]. *)
Fixpoint append_odds (team : string) (e : Entry)
    (all_odds : list (string * list Entry)) : list (string * list Entry) :=
  match all_odds with
  | [] => [(team, [e])]
  | (t, es) :: rest =>
      if String.eqb t team then (t, es ++ [e]) :: rest
      else (t, es) :: append_odds team e rest
  end.

(** The first loop of [_analyze_market]. *)
Definition collect_odds (bookmakers : list Bookmaker) (market_type : string)
    : list (string * list Entry) :=
  fold_left (fun all_odds bookmaker =>
    fold_left (fun all_odds market =>
      if String.eqb (m_key market) market_type then
        fold_left (fun all_odds outcome =>
          append_odds (name outcome)
            {| bookmaker := b_key bookmaker;
               e_price := price outcome;
               market_type := market_type |} all_odds)
          (outcomes market) all_odds
      else all_odds)
      (markets bookmaker) all_odds)
    bookmakers [].

(** [max(first :: rest, key=key)]: a later item replaces the current one
    only when its key is strictly greater. *)
Definition py_max {A : Type} (key : A -> Q) (first : A) (rest : list A) : A :=
  fold_left (fun best x => if Qlt_bool (key best) (key x) then x else best)
    rest first.

(** [min(first :: rest, key=key)]: a later item replaces the current one
    only when its key is strictly smaller. *)
Definition py_min {A : Type} (key : A -> Q) (first : A) (rest : list A) : A :=
  fold_left (fun best x => if Qlt_bool (key x) (key best) then x else best)
    rest first.

Definition price_key (o : Entry) : Q := value (e_price o).

Definition back_odds (entries : list Entry) : list Entry :=
  List.filter (fun o => String.eqb (market_type o) "h2h") entries.

Definition lay_odds (entries : list Entry) : list Entry :=
  List.filter (fun o => String.eqb (market_type o) "h2h_lay") entries.

(** [if back_odds and lay_odds:] followed by the two selections. *)
Definition select_best (backs lays : list Entry) : option (Entry * Entry) :=
  match backs, lays with
  | b :: bs, l :: ls => Some (py_max price_key b bs, py_min price_key l ls)
  | _, _ => None
  end.

Definition best_pair (entries : list Entry) : option (Entry * Entry) :=
  select_best (back_odds entries) (lay_odds entries).

(** [if isinstance(p, int): p = self._american_to_decimal(p)]. *)
Definition to_decimal (p : number) : option Q :=
  match p with
  | PyInt n => _american_to_decimal n
  | PyFloat q => Some q
  end.

(** What [_analyze_market] knows about the event. *)
Record EventInfo : Type := mkEventInfo {
  i_event_id : string;
  i_home_team : string;
  i_away_team : string;
  i_commence_time : string;
  i_sport : string
}.

(** The body of [if back_odds and lay_odds:] once the pair is chosen.
    The outer [option] is the exception, the inner one says whether an
    opportunity dict is built.  [now] is [int(time.time())]. *)
Definition opportunity_of_pair (ev : EventInfo) (team : string) (now : Z)
    (best_back best_lay : Entry) : option (option Opportunity) :=
  back_price ← to_decimal (e_price best_back);
  lay_price ← to_decimal (e_price best_lay);
  if Qlt_bool back_price lay_price then
    diff_percent ← div (lay_price - back_price) back_price;
    if Qle_bool MIN_ODDS_DIFFERENCE diff_percent then
      let '(is_arbitrage, margin) := identify_arbitrage back_price lay_price in
      let back_prob := decimal_to_probability back_price in
      recommendation ←
        _generate_recommendation back_price lay_price back_prob is_arbitrage;
      Some (Some
        {| event_id := i_event_id ev;
           sport := i_sport ev;
           o_home_team := i_home_team ev;
           o_away_team := i_away_team ev;
           team := team;
           o_commence_time := i_commence_time ev;
           timestamp := now;
           back := {| q_bookmaker := bookmaker best_back;
                      q_price := back_price;
                      q_probability := back_prob |};
           lay := {| q_bookmaker := bookmaker best_lay;
                     q_price := lay_price;
                     q_probability := decimal_to_probability lay_price |};
           difference_percent := diff_percent * 100;
           is_arbitrage := is_arbitrage;
           arbitrage_margin := if is_arbitrage then margin else 0;
           recommendation := recommendation;
           potential_cycle :=
             Qle_bool back_price MAX_BACK_ODDS
             || Qle_bool MIN_LAY_ODDS lay_price;
           cycle_info := None |})
    else Some None
  else Some None.

(** One iteration of [for team in all_odds:]. *)
Definition opportunity_of_team (ev : EventInfo) (now : Z)
    (team : string) (entries : list Entry) : option (option Opportunity) :=
  match best_pair entries with
  | Some (best_back, best_lay) =>
      opportunity_of_pair ev team now best_back best_lay
  | None => Some None
  end.

End Steps.

(** ** analyzer.py: the state of [TradingAnalyzer] *)

Module Analyzer.
Import Py Config Utils Feed Records Steps.
Local Open Scope Q_scope.

(** A reference to a dict object: its index in the store it lives in. *)
Definition loc : Type := nat.

(** The analyzer together with the part of the Python world it shares:
    the module-level dict [CYCLE_SETTINGS], whose values are references to
    profile dicts, and the opportunity dicts, which the lists
    [self.opportunities] and [cycle_opportunities] hold by reference. *)
Record State : Type := mkState {
  settings_store : list Settings;
  CYCLE_SETTINGS : gmap string loc;
  opp_store : list Opportunity;
  odds_data : list (string * list Event);
  opportunities : list loc;
  cycle_profile : string;
  cycle_settings : loc
}.

(** The profile dict that [self.cycle_settings] refers to. *)
Definition active_settings (st : State) : option Settings :=
  settings_store st !! cycle_settings st.

(** The world after importing [config] and running [__init__]:
    [loaded] is what [load_data(OPPORTUNITIES_FILE) or []] returned. *)
Definition init (data : list (string * list Event))
    (loaded : list Opportunity) : State :=
  {| settings_store :=
       [default_settings; conservative_settings;
        aggressive_settings; custom_settings];
     CYCLE_SETTINGS :=
       <["default" := 0%nat]> (<["conservative" := 1%nat]>
       (<["aggressive" := 2%nat]> (<["custom" := 3%nat]> ∅)));
     opp_store := loaded;
     odds_data := data;
     opportunities := seq 0 (length loaded);
     cycle_profile := "default";
     cycle_settings := 0%nat |}.

Definition set_cycle_profile (profile : string) (st : State) : bool * State :=
  match CYCLE_SETTINGS st !! profile with
  | Some l =>
      (true,
       {| settings_store := settings_store st;
          CYCLE_SETTINGS := CYCLE_SETTINGS st;
          opp_store := opp_store st;
          odds_data := odds_data st;
          opportunities := opportunities st;
          cycle_profile := profile;
          cycle_settings := l |})
  | None => (false, st)
  end.

(** The dict literal is a new object; [CYCLE_SETTINGS["custom"]] is
    rebound to it, and so is [self.cycle_settings] when the active profile
    is ["custom"]. *)
Definition set_custom_cycle_settings
    (green_target max_red risk_reward_ratio : Q) (st : State) : State :=
  let l := length (settings_store st) in
  {| settings_store :=
       settings_store st
       ++ [mkSettings green_target max_red risk_reward_ratio];
     CYCLE_SETTINGS := <["custom" := l]> (CYCLE_SETTINGS st);
     opp_store := opp_store st;
     odds_data := odds_data st;
     opportunities := opportunities st;
     cycle_profile := cycle_profile st;
     cycle_settings :=
       if String.eqb (cycle_profile st) "custom" then l
       else cycle_settings st |}.

(** *** Code that allocates and may raise *)

Definition M (A : Type) : Type := State -> option (A * State).

Definition ret {A : Type} (a : A) : M A := fun st => Some (a, st).

Definition bind {A B : Type} (m : M A) (k : A -> M B) : M B :=
  fun st =>
    match m st with
    | Some (a, st') => k a st'
    | None => None
    end.

(** An exception, or a value, from pure code. *)
Definition lift {A : Type} (o : option A) : M A :=
  fun st =>
    match o with
    | Some a => Some (a, st)
    | None => None
    end.

Notation "'let*' x ':=' m 'in' k" := (bind m (fun x => k))
  (at level 10, x name, m at level 100, k at level 200).

Definition with_opp_store (h : list Opportunity) (st : State) : State :=
  {| settings_store := settings_store st;
     CYCLE_SETTINGS := CYCLE_SETTINGS st;
     opp_store := h;
     odds_data := odds_data st;
     opportunities := opportunities st;
     cycle_profile := cycle_profile st;
     cycle_settings := cycle_settings st |}.

Definition with_opportunities (l : list loc) (st : State) : State :=
  {| settings_store := settings_store st;
     CYCLE_SETTINGS := CYCLE_SETTINGS st;
     opp_store := opp_store st;
     odds_data := odds_data st;
     opportunities := l;
     cycle_profile := cycle_profile st;
     cycle_settings := cycle_settings st |}.

(** A new dict object. *)
Definition alloc (o : Opportunity) : M loc :=
  fun st =>
    Some (length (opp_store st), with_opp_store (opp_store st ++ [o]) st).

(** Reading through a reference. *)
Definition deref (l : loc) : M Opportunity :=
  fun st => lift (opp_store st !! l) st.

(** [opp.copy()]: a new dict with the same items. *)
Definition copy (l : loc) : M loc :=
  let* o := deref l in alloc o.

(** [d["cycle_info"] = ci] on the object that [l] refers to. *)
Definition store_cycle_info (l : loc) (ci : CycleInfo) : M unit :=
  fun st =>
    match opp_store st !! l with
    | Some o =>
        Some (tt, with_opp_store (<[l := set_cycle_info ci o]> (opp_store st)) st)
    | None => None
    end.

Definition get_settings : M Settings :=
  fun st => lift (active_settings st) st.

(** A [for] loop that appends to a result list. *)
Fixpoint for_each {A B : Type} (f : A -> list B -> M (list B))
    (l : list A) (acc : list B) : M (list B) :=
  match l with
  | [] => ret acc
  | x :: rest => let* acc' := f x acc in for_each f rest acc'
  end.

(** One of the two blocks in the loop body of
    [analyze_cycle_opportunities], for the price [p] of the given side. *)
Definition cycle_side (opp : loc) (p : Q) (is_back : bool)
    (cycle_opportunities : list loc) : M (list loc) :=
  let* s := get_settings in
  let* ci := lift (calculate_cycle_opportunity p is_back
                (green_target s) (max_red s) (Config.risk_reward_ratio s)) in
  if is_valid ci then
    let* stake_info := lift (adjust_stake_for_cycle p is_back
                          (green_target s) default_bankroll) in
    let ci := update ci stake_info in
    let* opp_copy := copy opp in
    let* _ := store_cycle_info opp_copy ci in
    ret (cycle_opportunities ++ [opp_copy])
  else ret cycle_opportunities.

Definition cycle_body (opp : loc) (cycle_opportunities : list loc)
    : M (list loc) :=
  let* o := deref opp in
  let back_price := q_price (back o) in
  let* acc := (if Qle_bool back_price MAX_BACK_ODDS
          then cycle_side opp back_price true cycle_opportunities
          else ret cycle_opportunities) in
  let* o := deref opp in
  let lay_price := q_price (lay o) in
  if Qle_bool MIN_LAY_ODDS lay_price
  then cycle_side opp lay_price false acc
  else ret acc.

Definition analyze_cycle_opportunities (opportunities : list loc)
    : M (list loc) :=
  for_each cycle_body opportunities [].

(** The second loop of [_analyze_market]. *)
Definition market_body (ev : EventInfo) (now : Z)
    (item : string * list Entry) (opportunities : list loc) : M (list loc) :=
  let* r := lift (opportunity_of_team ev now (fst item) (snd item)) in
  match r with
  | Some opportunity =>
      let* l := alloc opportunity in ret (opportunities ++ [l])
  | None => ret opportunities
  end.

Definition _analyze_market (ev : EventInfo) (now : Z)
    (bookmakers : list Bookmaker) (market_type : string) : M (list loc) :=
  let all_odds := collect_odds bookmakers market_type in
  for_each (market_body ev now) all_odds [].

Definition event_info (sport : string) (event : Event) : EventInfo :=
  {| i_event_id := id event;
     i_home_team := home_team event;
     i_away_team := away_team event;
     i_commence_time := commence_time event;
     i_sport := sport |}.

(** [opportunities.extend(self._analyze_market(...))] for one market. *)
Definition extend_market (ev : EventInfo) (now : Z)
    (bookmakers : list Bookmaker) (market_type : string)
    (opportunities : list loc) : M (list loc) :=
  let* market_opportunities := _analyze_market ev now bookmakers market_type in
  ret (opportunities ++ market_opportunities).

Definition event_body (sport : string) (now : Z) (event : Event)
    (opportunities : list loc) : M (list loc) :=
  for_each (extend_market (event_info sport event) now (bookmakers event))
    ["h2h"; "h2h_lay"]%string opportunities.

Definition sport_body (now : Z) (item : string * list Event)
    (opportunities : list loc) : M (list loc) :=
  for_each (event_body (fst item) now) (snd item) opportunities.

(** The whole pass.  Saving to [OPPORTUNITIES_FILE] and logging belong to
    the persistence collaborator and leave the analyzer as it is. *)
Definition analyze_back_lay_opportunities (now : Z) : M (list loc) :=
  fun st =>
    (let* opportunities := for_each (sport_body now) (odds_data st) [] in
     let* cycle_opportunities := analyze_cycle_opportunities opportunities in
     fun st' => Some (opportunities, with_opportunities opportunities st')) st.

(** ['cycle_info' in opp]. *)
Definition has_cycle_info (o : Opportunity) : bool :=
  match cycle_info o with
  | Some _ => true
  | None => false
  end.

Definition keep_cycle (opp : loc) (acc : list loc) : M (list loc) :=
  let* o := deref opp in
  ret (if has_cycle_info o then acc ++ [opp] else acc).

Definition get_cycle_opportunities : M (list loc) :=
  fun st => for_each keep_cycle (opportunities st) [] st.

End Analyzer.

(** ** analyzer.py and agent.py: the queries on the stored opportunities *)

Module Queries.
Import Py Config Utils Feed Records Steps Analyzer.

(** The loop of [get_event_by_id]: the first record with the given id. *)
Fixpoint find_event (wanted : string) (opps : list loc) : M (option loc) :=
  match opps with
  | [] => ret None
  | opp :: rest =>
      let* o := deref opp in
      if String.eqb (event_id o) wanted then ret (Some opp)
      else find_event wanted rest
  end.

Definition get_event_by_id (wanted : string) : M (option loc) :=
  fun st => find_event wanted (opportunities st) st.

(** [if not event: return None] leaves a found record as it is: a stored
    opportunity dict is never empty. *)
Definition analyze_specific_game (wanted : string) : M (option loc) :=
  get_event_by_id wanted.

(** [opp.get('potential_cycle', False) or 'cycle_info' in opp]. *)
Definition for_cycle (o : Opportunity) : bool :=
  potential_cycle o || has_cycle_info o.

(** The body of the loop of [get_active_opportunities].  [parse] stands
    for [int(datetime.fromisoformat(s.replace('Z', '+00:00')).timestamp())],
    with [None] for the [ValueError] that the [except] clause catches, and
    [now] is [int(time.time())]. *)
Definition keep_active (parse : string -> option Z) (now : Z)
    (cycle_only : bool) (opp : loc) (active : list loc) : M (list loc) :=
  let* o := deref opp in
  let kept := if cycle_only
              then (if for_cycle o then active ++ [opp] else active)
              else active ++ [opp] in
  if String.eqb (o_commence_time o) "" then ret active
  else
    match parse (o_commence_time o) with
    | Some commence_timestamp =>
        if (now <? commence_timestamp)%Z then ret kept else ret active
    | None => ret kept
    end.

Definition get_active_opportunities (parse : string -> option Z) (now : Z)
    (cycle_only : bool) : M (list loc) :=
  fun st => for_each (keep_active parse now cycle_only) (opportunities st) [] st.

(** [TradingAgent.get_opportunities]. *)
Definition get_opportunities (parse : string -> option Z) (now : Z)
    (active_only cycle_only : bool) : M (list loc) :=
  if cycle_only then
    if active_only then get_active_opportunities parse now true
    else get_cycle_opportunities
  else
    if active_only then get_active_opportunities parse now false
    else fun st => Some (opportunities st, st).

End Queries.

(** * The numeric functions on binary64 floats *)

(** The functions of [utils.py] and the recommendation generator of
    [analyzer.py] on Python's floats: IEEE 754 binary64 values, with the
    correctly rounded operations of the interpreter and the primitive
    floats of Rocq as their model.  An argument is a float, as the
    annotations of the source say and as [_analyze_market] passes it (an
    [int] price is converted before it is used); a literal of the source is
    the float that Python reads it as, and an [int] literal used next to a
    float is the float of the same value. *)

Module Binary64.
Local Open Scope float_scope.

(** [x / y] on floats: [ZeroDivisionError] when [y] is [0.0] or [-0.0];
    every other quotient, infinite or not a number, is returned. *)
Definition div (x y : float) : option float :=
  if y =? 0 then None else Some (x / y).

(** The magnitude [m * 2 ^ e] of a finite float. *)
Definition magnitude (m : positive) (e : Z) : Q :=
  (inject_Z (Z.pos m) * 2 ^ e)%Q.

(** The float of sign [s] nearest to [n / 100]: the correctly rounded
    quotient of the two integers. *)
Definition hundredths (s : bool) (n : Z) : float :=
  match n with
  | Z.pos p =>
      SF2Prim (SFdiv prec emax (S754_finite s p 0) (S754_finite false 100 0))
  | _ => if s then -0 else 0
  end.

(** [round(x, 2)] on a float: the value [m * 2 ^ e] that [x] stands for is
    rounded to the nearest hundredth, ties to the even one, and the float
    nearest to that decimal is returned; zeros, infinities and [nan] are
    returned as they are, and a result that rounds to zero keeps the
    sign of [x]. *)
Definition round2 (x : float) : float :=
  match Prim2SF x with
  | S754_finite s m e =>
      hundredths s (Py.round_half_even (magnitude m e * 100)%Q)
  | _ => x
  end.

(** The thresholds of [config.py] as Python reads them. *)
Definition MAX_BACK_ODDS : float := 1.06.
Definition MIN_LAY_ODDS : float := 30.0.
Definition MIN_PROBABILITY : float := 0.60.

(** *** utils.py *)

Definition decimal_to_probability (odds : float) : float :=
  if 0 <? odds then 1 / odds else 0.

Definition calculate_lay_liability (stake odds : float) : float :=
  stake * (odds - 1).

Definition calculate_back_profit (stake odds : float) : float :=
  stake * (odds - 1).

Definition identify_arbitrage (back_odds lay_odds : float) : bool * float :=
  let back_prob := decimal_to_probability back_odds in
  let lay_prob := decimal_to_probability lay_odds in
  let total_prob := back_prob + lay_prob in
  if total_prob <? 0.98 then
    let margin := (1 - total_prob) * 100 in
    (true, margin)
  else (false, 0.0).

(** The dict returned by [calculate_cycle_opportunity]. *)
Record CycleInfo : Type := mkCycleInfo {
  is_valid : bool;
  type : string;
  odds : float;
  green_percent : float;
  red_percent : float;
  stake : float;
  green_value : float;
  red_value : float;
  risk_reward_ratio : float
}.

Definition calculate_cycle_opportunity
    (odds : float) (is_back : bool)
    (green_target max_red risk_reward_ratio : float) : option CycleInfo :=
  let stake := 100 in
  '(green_percent, green_value, red_percent, red_value) ←
    (if is_back then
       Some (odds - 1, calculate_back_profit stake odds, 1.0, stake)
     else
       g ← div 1 odds;
       r ← div (odds - 1) odds;
       Some (g, stake, r, calculate_lay_liability stake odds));
  let actual_ratio :=
    if 0 <? green_percent then red_percent / green_percent
    else infinity in
  let is_valid :=
    if is_back then
      (green_target <=? green_percent)
      && (green_percent <=? green_target * 1.5)
      && (actual_ratio <=? risk_reward_ratio)
    else
      (green_target <=? green_percent)
      && (red_percent <=? max_red)
      && (actual_ratio <=? risk_reward_ratio) in
  Some {| is_valid := is_valid;
          type := if is_back then "BACK" else "LAY";
          odds := odds;
          green_percent := green_percent;
          red_percent := red_percent;
          stake := stake;
          green_value := green_value;
          red_value := red_value;
          risk_reward_ratio := actual_ratio |}.

(** *** analyzer.py *)

Record Recommendation : Type := mkRecommendation {
  action : option string;
  confidence : float;
  strategy : option string;
  stake_recommendation : float;
  potential_profit : float;
  max_liability : float
}.

Definition _generate_recommendation
    (back_price lay_price back_prob : float) (is_arbitrage : bool)
    : option Recommendation :=
  if back_price <=? MAX_BACK_ODDS then
    Some {| action := Some "BACK";
            confidence := 0.90;
            strategy := Some "Método dos Ciclos (Back)";
            stake_recommendation := 100;
            potential_profit := round2 (calculate_back_profit 100 back_price);
            max_liability := 100 |}
  else if MIN_LAY_ODDS <=? lay_price then
    Some {| action := Some "LAY";
            confidence := 0.90;
            strategy := Some "Método dos Ciclos (Lay)";
            stake_recommendation := 100;
            potential_profit := 100;
            max_liability := round2 (calculate_lay_liability 100 lay_price) |}
  else if is_arbitrage then
    let back_stake := 100 in
    ratio ← div back_price lay_price;
    let lay_stake := back_stake * ratio in
    let back_profit := calculate_back_profit back_stake back_price in
    let lay_liability := calculate_lay_liability lay_stake lay_price in
    let net_profit := back_profit - lay_liability in
    Some {| action := Some "BACK_AND_LAY";
            confidence := 0.95;
            strategy := Some "Arbitragem";
            stake_recommendation := 100;
            potential_profit := round2 net_profit;
            max_liability := round2 lay_liability |}
  else if (MIN_PROBABILITY <=? back_prob) && (back_price <? lay_price) then
    Some {| action := Some "BACK";
            confidence := back_prob;
            strategy := Some "Valor Esperado";
            stake_recommendation := 50;
            potential_profit := round2 (calculate_back_profit 50 back_price);
            max_liability := 50 |}
  else
    let lay_prob := decimal_to_probability lay_price in
    if MIN_PROBABILITY <=? lay_prob then
      Some {| action := Some "LAY";
              confidence := lay_prob;
              strategy := Some "Lay de Valor";
              stake_recommendation := 50;
              potential_profit := 50;
              max_liability := round2 (calculate_lay_liability 50 lay_price) |}
    else
      Some {| action := Some "MONITOR";
              confidence := 0;
              strategy := Some "Aguardar";
              stake_recommendation := 0;
              potential_profit := 0;
              max_liability := 0 |}.

End Binary64.

(** * Notions used in the statements *)

Section Notions.
Import Py Config Utils Feed Records Steps Analyzer.
Local Open Scope Q_scope.

(** ** Pure functions *)

(** The stake adjuster on a lay position as the specification words it,
    at one input: it returns a result with [stake = t * B],
    [green_value = stake], [red_value = stake * (o - 1)] and
    [red_percent = red_value / B]. *)
Definition lay_adjuster_as_specified (o t B : Q) : Prop :=
  exists r,
    adjust_stake_for_cycle o false t B = Some r
    /\ s_stake r = t * B
    /\ s_green_value r = s_stake r
    /\ s_red_value r = s_stake r * (o - 1)
    /\ s_red_percent r = s_red_value r / B.

(** ** Profiles *)

(** Every reference held by the state refers to an object. *)
Definition wf (st : State) : Prop :=
  is_Some (active_settings st)
  /\ (forall (p : string) (l : loc),
        CYCLE_SETTINGS st !! p = Some l -> is_Some (settings_store st !! l))
  /\ (forall l : loc, In l (opportunities st) -> is_Some (opp_store st !! l)).

(** ** The matcher *)



(** The quotes of one market type in the order of the feed: bookmakers,
    then their markets, then the outcomes of a market. *)
Definition quotes_in_order (bookmakers : list Bookmaker) (market_type : string)
    : list (string * Entry) :=
  flat_map (fun b =>
    flat_map (fun m =>
      if String.eqb (m_key m) market_type then
        map (fun o => (name o, mkEntry (b_key b) (price o) market_type))
            (outcomes m)
      else [])
      (markets b))
    bookmakers.

(** The quotes of [quotes] that carry the outcome name [team]. *)
Definition quotes_of (team : string) (quotes : list (string * Entry))
    : list Entry :=
  map snd (List.filter (fun q => String.eqb (fst q) team) quotes).

(** [all_odds[team]], when the key is there. *)
Fixpoint get (team : string) (all_odds : list (string * list Entry))
    : option (list Entry) :=
  match all_odds with
  | [] => None
  | (t, es) :: rest => if String.eqb t team then Some es else get team rest
  end.

(** The first loop of [_analyze_market] run on a list of quotes. *)
Definition group (quotes : list (string * Entry))
    (all_odds : list (string * list Entry)) : list (string * list Entry) :=
  fold_left (fun acc q => append_odds (fst q) (snd q) acc) quotes all_odds.

(** ** The store *)

(** From [st] to [st'] the objects of [st] are as they were, and so are
    the references that the analyzer holds. *)
Definition extends (st st' : State) : Prop :=
  settings_store st' = settings_store st
  /\ cycle_settings st' = cycle_settings st
  /\ opportunities st' = opportunities st
  /\ forall (l : loc) o, opp_store st !! l = Some o -> opp_store st' !! l = Some o.

(** Every reference of [acc] refers to a record with property [P]. *)
Definition all_refs (P : Opportunity -> Prop) (acc : list loc) (st : State)
    : Prop :=
  forall l : loc, In l acc -> exists o, opp_store st !! l = Some o /\ P o.

(** The price gate of [_analyze_market] on a pair of decimal prices. *)
Definition price_gate (back_price lay_price : Q) : Prop :=
  back_price < lay_price
  /\ ~ back_price == 0
  /\ MIN_ODDS_DIFFERENCE <= (lay_price - back_price) / back_price.

(** A record as the matcher emits it. *)
Definition emitted (o : Opportunity) : Prop :=
  cycle_info o = None
  /\ price_gate (q_price (back o)) (q_price (lay o)).

(** The classifier accepts price [p] on the given side under [s]. *)
Definition classifier_valid (s : Settings) (p : Q) (is_back : bool) : Prop :=
  exists ci,
    calculate_cycle_opportunity p is_back (green_target s) (max_red s)
      (Config.risk_reward_ratio s) = Some ci
    /\ is_valid ci = true.

(** A record that carries the cycle info of a valid classification of the
    price of the side that the info names. *)
Definition carries_valid_cycle (s : Settings) (o : Opportunity) : Prop :=
  exists ci,
    cycle_info o = Some ci
    /\ is_valid ci = true
    /\ (type ci = "BACK"%string \/ type ci = "LAY"%string)
    /\ (type ci = "BACK"%string ->
        odds ci = q_price (back o)
        /\ classifier_valid s (q_price (back o)) true)
    /\ (type ci = "LAY"%string ->
        odds ci = q_price (lay o)
        /\ classifier_valid s (q_price (lay o)) false).

(** The loops of the first phase keep this: nothing that was there is
    touched, and every reference collected so far refers to a record as
    the matcher emits it. *)
Definition phase1 (st0 : State) (acc : list loc) (st : State) : Prop :=
  extends st0 st /\ all_refs emitted acc st.

(** The loop of [analyze_cycle_opportunities] keeps this: nothing that was
    there is touched, and every reference collected so far is a new object,
    the copy of one of the inputs with a valid cycle info. *)
Definition phase2 (s : Settings) (opps : list loc) (st0 : State)
    (acc : list loc) (st : State) : Prop :=
  extends st0 st
  /\ forall l : loc, In l acc ->
       (length (opp_store st0) <= l)%nat
       /\ exists o,
            opp_store st !! l = Some o
            /\ carries_valid_cycle s o
            /\ exists l0 src ci,
                 In l0 opps
                 /\ opp_store st !! l0 = Some src
                 /\ o = set_cycle_info ci src.

(** All the entries carry the market type [mt]. *)
Definition of_type (mt : string) (entries : list Entry) : Prop :=
  forall e, In e entries -> market_type e = mt.

(** ** Sample data *)

Definition sample_event : EventInfo :=
  mkEventInfo "e1" "A" "B" "2026-01-01T00:00:00Z" "soccer".

Definition sample_back : Entry := mkEntry "bk1" (PyFloat 1.05) "h2h".

Definition sample_lay : Entry := mkEntry "bk2" (PyFloat 40) "h2h_lay".

(** A lay quote 2.5% above a back quote of 2.0. *)
Definition sample_close_lay : Entry := mkEntry "bk2" (PyFloat 2.05) "h2h_lay".

Definition sample_even_back : Entry := mkEntry "bk1" (PyFloat 2.0) "h2h".

(** A record with back price 1.05 and lay price 1.25. *)
Definition sample_opportunity : Opportunity :=
  {| event_id := "e1";
     sport := "soccer";
     o_home_team := "A";
     o_away_team := "B";
     team := "A";
     o_commence_time := "2026-01-01T00:00:00Z";
     timestamp := 7;
     back := mkBestQuote "bk1" 1.05 (1 / 1.05);
     lay := mkBestQuote "bk2" 1.25 (1 / 1.25);
     difference_percent := 100 * ((1.25 - 1.05) / 1.05);
     is_arbitrage := false;
     arbitrage_margin := 0;
     recommendation :=
       mkRecommendation (Some "BACK"%string) 0.90
         (Some "Método dos Ciclos (Back)"%string) 100 5 100;
     potential_cycle := true;
     cycle_info := None |}.

(** The analyzer holding that record, with a custom profile of ratio 1:20
    made active. *)
Definition sample_state : State :=
  snd (set_cycle_profile "custom"
         (set_custom_cycle_settings 0.05 0.15 20
            (init [] [sample_opportunity]))).

(** A feed with one event quoted on both market types. *)
Definition sample_feed_state : State :=
  init [("soccer"%string,
         [mkEvent "e1" "A" "B" "2026-01-01T00:00:00Z"
            [mkBookmaker "bk1"
               [mkMarket "h2h" [mkOutcome "A" (PyFloat 1.05)];
                mkMarket "h2h_lay" [mkOutcome "A" (PyFloat 40)]]]])] [].

End Notions.

(** * Further notions *)

Section FurtherNotions.
Import Py Config Utils Feed Records Steps Analyzer.
Local Open Scope Q_scope.

(** Two bookmakers quoting the outcomes A and B on the back market, the
    first one also on the lay market. *)
Definition sample_bookmakers : list Bookmaker :=
  [mkBookmaker "bk1"
     [mkMarket "h2h" [mkOutcome "A" (PyFloat 1.05); mkOutcome "B" (PyFloat 2.0)];
      mkMarket "h2h_lay" [mkOutcome "A" (PyFloat 40)]];
   mkBookmaker "bk2" [mkMarket "h2h" [mkOutcome "A" (PyInt 150)]]].

(** ** Sequences of setter calls *)

(** A call of one of the two setters of the analyzer. *)
Inductive setter_call : Type :=
| SetProfile (profile : string)
| SetCustom (green_target max_red risk_reward_ratio : Q).

Definition call_setter (c : setter_call) (st : State) : State :=
  match c with
  | SetProfile p => snd (set_cycle_profile p st)
  | SetCustom g r k => set_custom_cycle_settings g r k st
  end.

(** The calls of [cs] made one after the other. *)
Definition call_setters (cs : list setter_call) (st : State) : State :=
  fold_left (fun st c => call_setter c st) cs st.

(** [CYCLE_SETTINGS[p]], when the key is there. *)
Definition profile_settings (st : State) (p : string) : option Settings :=
  match CYCLE_SETTINGS st !! p with
  | Some l => settings_store st !! l
  | None => None
  end.

(** The parameters of the last [SetCustom] call of [cs], or [s] when there
    is none. *)
Definition last_custom (cs : list setter_call) (s : Settings) : Settings :=
  fold_left (fun s c =>
               match c with
               | SetCustom g r k => mkSettings g r k
               | SetProfile _ => s
               end) cs s.

(** What every sequence of setter calls keeps. *)
Definition profiles_consistent (st : State) : Prop :=
  CYCLE_SETTINGS st !! cycle_profile st = Some (cycle_settings st)
  /\ (forall (p : string) (l : loc),
        CYCLE_SETTINGS st !! p = Some l -> is_Some (settings_store st !! l))
  /\ dom (CYCLE_SETTINGS st)
     = ({["default"; "conservative"; "aggressive"; "custom"]} : gset string)
  /\ profile_settings st "default" = Some default_settings
  /\ profile_settings st "conservative" = Some conservative_settings
  /\ profile_settings st "aggressive" = Some aggressive_settings.

(** ** Queries *)

(** The record behind a reference passes the test of
    [get_active_opportunities]. *)
Definition shown_as_active (parse : string -> option Z) (now : Z)
    (cycle_only : bool) (st : State) (l : loc) : bool :=
  match opp_store st !! l with
  | Some o =>
      negb (String.eqb (o_commence_time o) "")
      && match parse (o_commence_time o) with
         | Some ts => (now <? ts)%Z
         | None => true
         end
      && (negb cycle_only || Queries.for_cycle o)
  | None => false
  end.

(** The record behind a reference has the given event id. *)
Definition has_event_id (wanted : string) (st : State) (l : loc) : bool :=
  match opp_store st !! l with
  | Some o => String.eqb (event_id o) wanted
  | None => false
  end.

(** Two records of the same event, the second one starting at a time that
    cannot be read. *)
Definition sample_two_records : State :=
  init [] [sample_opportunity;
           set_cycle_info
             (mkCycleInfo true "BACK" 1.05 0.05 1 1000 50 1000 (Fin 20))
             {| event_id := "e1";
                sport := "soccer";
                o_home_team := "A";
                o_away_team := "B";
                team := "B";
                o_commence_time := "soon";
                timestamp := 7;
                back := mkBestQuote "bk1" 1.05 (1 / 1.05);
                lay := mkBestQuote "bk2" 1.25 (1 / 1.25);
                difference_percent := 100 * ((1.25 - 1.05) / 1.05);
                is_arbitrage := false;
                arbitrage_margin := 0;
                recommendation :=
                  mkRecommendation (Some "BACK"%string) 0.90
                    (Some "Método dos Ciclos (Back)"%string) 100 5 100;
                potential_cycle := false;
                cycle_info := None |}].

(** The record behind a reference has a [cycle_info] key. *)
Definition with_cycle_info (st : State) (l : loc) : bool :=
  match opp_store st !! l with
  | Some o => has_cycle_info o
  | None => false
  end.

(** The references that the analyzer holds refer to objects. *)
Definition refs_valid (st : State) : Prop :=
  all_refs (fun _ => True) (opportunities st) st.

(** A clock reading that knows one date only. *)
Definition sample_parse (s : string) : option Z :=
  if String.eqb s "2026-01-01T00:00:00Z" then Some 1767225600%Z else None.

End FurtherNotions.

(** * Notions used in the statements about floats *)

Section FloatNotions.
Import Binary64.
Local Open Scope float_scope.

(** The record that rule 1 returns. *)
Definition cycle_back_recommendation (back_price : float) : Recommendation :=
  {| action := Some "BACK";
     confidence := 0.90;
     strategy := Some "Método dos Ciclos (Back)";
     stake_recommendation := 100;
     potential_profit := round2 (100 * (back_price - 1));
     max_liability := 100 |}.

(** [r] is [x] rounded to two decimals: for a finite [x] of magnitude
    [m * 2 ^ e], the float nearest to [n / 100] for an integer [n] at most
    one half away from [100 * m * 2 ^ e], with the sign of [x]. *)
Definition rounded_to_hundredths (x r : float) : Prop :=
  match Prim2SF x with
  | S754_finite s m e =>
      exists n : Z,
        (Qabs (inject_Z n - magnitude m e * 100) <= 1 # 2)%Q
        /\ r = hundredths s n
  | _ => r = x
  end.

(** [p(back) + p(lay)]. *)
Definition total_implied_prob (back lay : float) : float :=
  decimal_to_probability back + decimal_to_probability lay.

(** The back classifier as the specification words it, at one input:
    [green% = o - 1], [red% = 1.0], the realized ratio is the quotient
    [red% / green%], and the result is valid iff the green bound holds and
    that quotient is at most the profile's ratio. *)
Definition back_classifier_as_specified
    (o green_target max_red ratio : float) : Prop :=
  exists ci q,
    calculate_cycle_opportunity o true green_target max_red ratio = Some ci
    /\ green_percent ci = o - 1
    /\ red_percent ci = 1.0
    /\ div (red_percent ci) (green_percent ci) = Some q
    /\ risk_reward_ratio ci = q
    /\ (is_valid ci = true <->
        (green_target <=? green_percent ci) = true
        /\ (green_percent ci <=? green_target * 1.5) = true
        /\ (q <=? ratio) = true).

End FloatNotions.

(** * Properties *)

(** ** Arithmetic helpers *)

Section Arithmetic.
Import Py.
Local Open Scope Q_scope.

Lemma Qlt_bool_iff (x y : Q) : Qlt_bool x y = true <-> x < y.
Proof.
  unfold Qlt_bool. rewrite negb_true_iff.
  split; intro H.
  - apply Qnot_le_lt. intro Hle. apply Qle_bool_iff in Hle. congruence.
  - destruct (Qle_bool y x) eqn:E; [|reflexivity].
    apply Qle_bool_iff in E. exfalso. exact (Qlt_not_le _ _ H E).
Qed.

Lemma Qlt_bool_false_iff (x y : Q) : Qlt_bool x y = false <-> y <= x.
Proof.
  unfold Qlt_bool. rewrite negb_false_iff. apply Qle_bool_iff.
Qed.

Lemma Qle_bool_false_iff (x y : Q) : Qle_bool x y = false <-> y < x.
Proof.
  rewrite <- Qlt_bool_iff. unfold Qlt_bool.
  destruct (Qle_bool x y); simpl; split; congruence.
Qed.

Lemma div_Some (x y : Q) : ~ y == 0 -> div x y = Some (x / y).
Proof.
  intro H. unfold div. destruct (Qeq_bool y 0) eqn:E; [|reflexivity].
  apply Qeq_bool_iff in E. contradiction.
Qed.


(** The rounded integer is within one half of the number. *)
Lemma round_half_even_near (q : Q) :
  Qabs (inject_Z (round_half_even q) - q) <= 1 # 2.
Proof.
  unfold round_half_even.
  pose proof (Qfloor_le q) as Hlo.
  pose proof (Qlt_floor q) as Hhi.
  rewrite inject_Z_plus in Hhi. change (inject_Z 1) with 1 in Hhi.
  assert (Hup : forall b : bool,
             1 # 2 <= q - inject_Z (Qfloor q) ->
             Qabs (inject_Z (if b then Qfloor q + 1 else Qfloor q + 1)%Z - q)
             <= 1 # 2).
  { intros b H. destruct b; rewrite inject_Z_plus;
      change (inject_Z 1) with 1;
      generalize dependent (inject_Z (Qfloor q)); intros f Hlo Hhi H;
      apply Qabs_Qle_condition; split; lra. }
  destruct (Qcompare (q - inject_Z (Qfloor q)) (1 # 2)) eqn:E.
  - apply Qeq_alt in E. destruct (Z.even (Qfloor q)).
    + generalize dependent (inject_Z (Qfloor q)). intros f Hlo Hhi _ E.
      apply Qabs_Qle_condition; split; lra.
    + apply (Hup true). lra.
  - apply Qlt_alt in E.
    generalize dependent (inject_Z (Qfloor q)). intros f Hlo Hhi _ E.
    apply Qabs_Qle_condition; split; lra.
  - apply Qgt_alt in E. apply (Hup true). lra.
Qed.

End Arithmetic.

(** ** Floats *)

Section Floats.
Import Binary64.
Local Open Scope float_scope.

(** Nothing but infinity and [nan] is not below infinity. *)
Lemma infinity_leb_false (r : float) :
  (r <? infinity) = true -> (infinity <=? r) = false.
Proof.
  rewrite ltb_spec, leb_spec.
  change (Prim2SF infinity) with (S754_infinity false).
  destruct (Prim2SF r) as [s|s| |s m e]; try destruct s;
    try discriminate; reflexivity.
Qed.

Lemma round2_rounded (x : float) : rounded_to_hundredths x (round2 x).
Proof.
  unfold rounded_to_hundredths, round2.
  destruct (Prim2SF x) as [s|s| |s m e]; try reflexivity.
  eexists. split; [apply round_half_even_near|reflexivity].
Qed.

End Floats.

(** ** The recommendation generator *)

Section Recommendation.
Import Binary64.
Local Open Scope float_scope.

(** C1.  Rule 1 of the recommendation generator comes first: whenever
    [back_price <= MAX_BACK_ODDS] (1.06) the result is action BACK,
    confidence 0.90, stake 100, potential profit [100 * (back_price - 1)]
    rounded to two decimals as [round] does it on the binary64 product, and
    max liability 100, whatever the lay price, the implied probability and
    the arbitrage flag are.  In particular back price 1.05 with lay price 40
    gives action BACK, with potential profit 5.0. *)
Theorem generate_recommendation_cycle_back_first
    (back_price lay_price back_prob : float) (is_arbitrage : bool) :
  ((back_price <=? MAX_BACK_ODDS) = true ->
   _generate_recommendation back_price lay_price back_prob is_arbitrage
     = Some (cycle_back_recommendation back_price)
   /\ rounded_to_hundredths (100 * (back_price - 1))
        (potential_profit (cycle_back_recommendation back_price)))
  /\ MAX_BACK_ODDS = 1.06
  /\ _generate_recommendation 1.05 40 back_prob is_arbitrage
     = Some (cycle_back_recommendation 1.05)
  /\ action (cycle_back_recommendation 1.05) = Some "BACK"%string
  /\ potential_profit (cycle_back_recommendation 1.05) = 5.
Proof.
  split; [|repeat split].
  intro Hle. split; [|apply round2_rounded].
  unfold _generate_recommendation. rewrite Hle. reflexivity.
Qed.

Lemma generate_recommendation_cycle_back_first_witness :
  (1.05 <=? MAX_BACK_ODDS) = true
  /\ _generate_recommendation 1.05 40 (1 / 1.05) true
     = Some (cycle_back_recommendation 1.05).
Proof.
  assert (H : (1.05 <=? MAX_BACK_ODDS) = true) by reflexivity.
  split; [exact H|].
  exact (proj1 (proj1
    (generate_recommendation_cycle_back_first 1.05 40 (1 / 1.05) true) H)).
Defined.

(** The cents that rule 1 reports are those of the binary64 product: a
    back price just above 1.00005 gives one cent, and American odds -16000,
    that is decimal 1.00625, give 63 cents. *)
Lemma cycle_back_profit_of_binary64_product :
  potential_profit (cycle_back_recommendation 1.00005) = 0.01
  /\ potential_profit (cycle_back_recommendation 1.00625) = 0.63.
Proof. split; reflexivity. Qed.

End Recommendation.

(** ** The arbitrage detector *)

Section Arbitrage.
Import Binary64.
Local Open Scope float_scope.

(** C3.  [identify_arbitrage] answers [true] exactly when the implied
    probabilities of the two prices add up to less than 0.98, and then
    the margin is [(1 - total) * 100]; otherwise it answers [false] with
    margin 0; sum, comparison and margin are those of binary64.  Back 1.90
    and lay 2.10 give no arbitrage and margin 0; back 2.20 and lay 2.50
    give arbitrage with margin 14.54545454545455, which is 14.55 to two
    decimals. *)
Theorem identify_arbitrage_spec (back lay : float) :
  ((total_implied_prob back lay <? 0.98) = true ->
   identify_arbitrage back lay
     = (true, (1 - total_implied_prob back lay) * 100))
  /\ ((total_implied_prob back lay <? 0.98) = false ->
      identify_arbitrage back lay = (false, 0))
  /\ (fst (identify_arbitrage back lay) = true
      <-> (total_implied_prob back lay <? 0.98) = true)
  /\ identify_arbitrage 1.90 2.10 = (false, 0)
  /\ (exists m : float,
        identify_arbitrage 2.20 2.50 = (true, m)
        /\ m = 14.54545454545455
        /\ round2 m = 14.55
        /\ (14.54 <? m) = true
        /\ (m <? 14.56) = true).
Proof.
  unfold identify_arbitrage, total_implied_prob.
  destruct (decimal_to_probability back + decimal_to_probability lay <? 0.98)
    eqn:E.
  - split; [reflexivity|]. split; [discriminate|].
    split; [split; reflexivity|]. split; [reflexivity|].
    eexists. split; [reflexivity|]. repeat split.
  - split; [discriminate|]. split; [reflexivity|].
    split; [split; discriminate|]. split; [reflexivity|].
    eexists. split; [reflexivity|]. repeat split.
Qed.

Lemma identify_arbitrage_spec_witness :
  (total_implied_prob 2 4 <? 0.98) = true
  /\ (total_implied_prob 1.90 2.10 <? 0.98) = false
  /\ identify_arbitrage 2 4 = (true, (1 - total_implied_prob 2 4) * 100)
  /\ identify_arbitrage 1.90 2.10 = (false, 0).
Proof.
  assert (H : (total_implied_prob 2 4 <? 0.98) = true) by reflexivity.
  assert (H' : (total_implied_prob 1.90 2.10 <? 0.98) = false)
    by reflexivity.
  split; [exact H|]. split; [exact H'|]. split.
  - exact (proj1 (identify_arbitrage_spec 2 4) H).
  - exact (proj1 (proj2 (identify_arbitrage_spec 1.90 2.10)) H').
Defined.

(** The comparison is made on the rounded sum: two prices whose exact
    total is just below 0.98 are not an arbitrage, and two whose exact
    total is just above are one. *)
Lemma identify_arbitrage_on_rounded_sum :
  identify_arbitrage 2 2.0833333333333335 = (false, 0)
  /\ identify_arbitrage 1.04 54.16666666666666 = (true, 2.0000000000000129).
Proof. split; reflexivity. Qed.

End Arbitrage.

(** ** The cycle classifier *)

Section Classifier.
Import Binary64.
Local Open Scope float_scope.

(** C2 as specified fails at odds 0.5 under the default profile: the
    quotient [red% / green%] is [1.0 / (-0.5) = -2], and the classifier
    reports an infinite ratio instead. *)
Lemma back_classifier_as_specified_fails :
  ~ back_classifier_as_specified 0.5 0.05 0.15 3.
Proof.
  intros (ci & q & Hci & _ & _ & Hq & Hr & _).
  vm_compute in Hci. injection Hci as <-.
  vm_compute in Hq. injection Hq as <-.
  apply (f_equal (fun r => r <? 0)) in Hr. discriminate.
Qed.

(** C2, amended.  On a back position the classifier computes
    [green% = o - 1] and [red% = 1.0]; the realized ratio is
    [red% / green%] when [green% > 0] and infinite otherwise, in which case
    the result is invalid under every finite ratio of the profile; the
    result is valid iff [green_target <= green% <= green_target * 1.5] and
    the realized ratio is at most the profile's ratio; differences,
    quotients and comparisons are those of binary64.  For odds 1.05 under
    the default profile the green bound holds, the ratio is
    19.999999999999982 > 3 and the result is invalid. *)
Theorem back_classifier_spec (o green_target max_red ratio : float) :
  exists ci,
    calculate_cycle_opportunity o true green_target max_red ratio = Some ci
    /\ type ci = "BACK"%string
    /\ green_percent ci = o - 1
    /\ red_percent ci = 1.0
    /\ ((0 <? o - 1) = true ->
        risk_reward_ratio ci = red_percent ci / green_percent ci)
    /\ ((0 <? o - 1) = false ->
        risk_reward_ratio ci = infinity
        /\ ((ratio <? infinity) = true -> is_valid ci = false))
    /\ (is_valid ci = true <->
        (green_target <=? green_percent ci) = true
        /\ (green_percent ci <=? green_target * 1.5) = true
        /\ (risk_reward_ratio ci <=? ratio) = true)
    /\ exists ci',
        calculate_cycle_opportunity 1.05 true 0.05 0.15 3 = Some ci'
        /\ green_percent ci' = 0.050000000000000044
        /\ (0.05 <=? green_percent ci') = true
        /\ (green_percent ci' <=? 0.05 * 1.5) = true
        /\ risk_reward_ratio ci' = 19.999999999999982
        /\ (3 <? risk_reward_ratio ci') = true
        /\ is_valid ci' = false.
Proof.
  unfold calculate_cycle_opportunity. simpl.
  eexists. split; [reflexivity|]. simpl.
  split; [reflexivity|]. split; [reflexivity|]. split; [reflexivity|].
  split; [|split; [|split]].
  - intro H. rewrite H. reflexivity.
  - intro H. rewrite H. split; [reflexivity|].
    intro Hr. rewrite (infinity_leb_false _ Hr). apply andb_false_r.
  - rewrite !andb_true_iff. tauto.
  - eexists. split; [reflexivity|]. repeat split.
Qed.

Lemma back_classifier_spec_witness :
  (0 <? 1.05 - 1) = true
  /\ (0 <? 0.5 - 1) = false
  /\ (3 <? infinity) = true
  /\ (exists ci,
        calculate_cycle_opportunity 1.05 true 0.05 0.15 3 = Some ci
        /\ risk_reward_ratio ci = red_percent ci / green_percent ci)
  /\ (exists ci,
        calculate_cycle_opportunity 0.5 true 0.05 0.15 3 = Some ci
        /\ risk_reward_ratio ci = infinity /\ is_valid ci = false).
Proof.
  assert (H : (0 <? 1.05 - 1) = true) by reflexivity.
  assert (H' : (0 <? 0.5 - 1) = false) by reflexivity.
  assert (H3 : (3 <? infinity) = true) by reflexivity.
  split; [exact H|]. split; [exact H'|]. split; [exact H3|]. split.
  - destruct (back_classifier_spec 1.05 0.05 0.15 3)
      as (ci & Hci & _ & _ & _ & Hr & _).
    exists ci. split; [exact Hci | exact (Hr H)].
  - destruct (back_classifier_spec 0.5 0.05 0.15 3)
      as (ci & Hci & _ & _ & _ & _ & Hr & _).
    exists ci. split; [exact Hci|].
    destruct (Hr H') as [Hinf Hv]. split; [exact Hinf | exact (Hv H3)].
Defined.

(** The verdict is that of the binary64 difference: odds 1.15 give a green
    of 0.1499999999999999, which misses a target of 0.15; and with an
    infinite ratio in the profile a green of zero is valid at target 0. *)
Lemma back_classifier_on_binary64_difference :
  is_valid <$> calculate_cycle_opportunity 1.15 true 0.15 0.5 10
    = Some false
  /\ green_percent <$> calculate_cycle_opportunity 1.15 true 0.15 0.5 10
     = Some 0.14999999999999991
  /\ is_valid <$> calculate_cycle_opportunity 1 true 0 0.5 infinity
     = Some true.
Proof. repeat split. Qed.

End Classifier.

(** ** The stake adjuster *)

Section StakeAdjuster.
Import Py Utils.
Local Open Scope Q_scope.

(** C5 as specified fails at bankroll 0: [red_value / bankroll] divides by
    zero and the call raises instead of returning. *)
Lemma lay_adjuster_as_specified_fails :
  ~ lay_adjuster_as_specified 30 0.05 0.
Proof.
  intros (r & Hr & _). vm_compute in Hr. discriminate Hr.
Qed.

(** C5, amended.  For a bankroll [B] other than zero, the stake adjuster
    on a lay position returns [stake = t * B], [green_value = stake],
    [red_value = stake * (o - 1)] and [red_percent = red_value / B], not
    clamped: odds 30, target 0.05 and bankroll 1000 give stake 50, red value
    1450 and red percent 1.45 > 1.  On a back position with [o > 1] it
    returns [stake = (t * B) / (o - 1)], [green_value = stake * (o - 1)]
    (which is the target payoff [t * B]), [red_value = stake] and
    [red_percent = stake / B].  On a back position with [o <= 1] it returns
    the all-zero result, whatever the bankroll. *)
Theorem adjust_stake_for_cycle_spec (o t B : Q) :
  (~ B == 0 ->
   adjust_stake_for_cycle o false t B
   = Some {| s_stake := t * B;
             s_green_value := t * B;
             s_red_value := (t * B) * (o - 1);
             s_green_percent := t;
             s_red_percent := ((t * B) * (o - 1)) / B |})
  /\ (1 < o -> ~ B == 0 ->
      adjust_stake_for_cycle o true t B
      = Some {| s_stake := (t * B) / (o - 1);
                s_green_value := ((t * B) / (o - 1)) * (o - 1);
                s_red_value := (t * B) / (o - 1);
                s_green_percent := t;
                s_red_percent := ((t * B) / (o - 1)) / B |}
      /\ ((t * B) / (o - 1)) * (o - 1) == t * B)
  /\ (o <= 1 ->
      adjust_stake_for_cycle o true t B
      = Some {| s_stake := 0; s_green_value := 0; s_red_value := 0;
                s_green_percent := 0; s_red_percent := 0 |})
  /\ exists r,
       adjust_stake_for_cycle 30 false 0.05 1000 = Some r
       /\ s_stake r == 50 /\ s_green_value r == 50
       /\ s_red_value r == 1450
       /\ s_red_percent r == 1.45 /\ 1 < s_red_percent r.
Proof.
  split; [|split; [|split]].
  - intro HB. unfold adjust_stake_for_cycle, calculate_lay_liability.
    rewrite (div_Some _ _ HB). reflexivity.
  - intros Ho HB. split; [|field; lra].
    unfold adjust_stake_for_cycle.
    assert (Hpos : 0 < o - 1) by lra.
    apply Qlt_bool_iff in Hpos. rewrite Hpos.
    rewrite (div_Some _ _ HB). reflexivity.
  - intro Hle. unfold adjust_stake_for_cycle.
    assert (Hnp : o - 1 <= 0) by lra.
    apply Qlt_bool_false_iff in Hnp. rewrite Hnp. reflexivity.
  - eexists. split; [reflexivity|]. repeat split; reflexivity.
Qed.

Lemma adjust_stake_for_cycle_spec_witness :
  (~ 1000 == 0) /\ 1 < 1.05 /\ 1 <= 1
  /\ (exists r, adjust_stake_for_cycle 30 false 0.05 1000 = Some r)
  /\ (exists r, adjust_stake_for_cycle 1.05 true 0.05 1000 = Some r)
  /\ adjust_stake_for_cycle 1 true 0.05 1000 = Some zero_stake.
Proof.
  assert (HB : ~ 1000 == 0) by discriminate.
  assert (Ho : 1 < 1.05) by reflexivity.
  assert (Hl : 1 <= 1) by discriminate.
  split; [exact HB|]. split; [exact Ho|]. split; [exact Hl|].
  split; [|split].
  - eexists. exact (proj1 (adjust_stake_for_cycle_spec 30 0.05 1000) HB).
  - eexists.
    exact (proj1 (proj1 (proj2 (adjust_stake_for_cycle_spec 1.05 0.05 1000))
                        Ho HB)).
  - exact (proj1 (proj2 (proj2 (adjust_stake_for_cycle_spec 1 0.05 1000)))
                 Hl).
Defined.

End StakeAdjuster.

(** ** Profiles *)

Section Profiles.
Import Py Config Utils Records Analyzer.
Local Open Scope Q_scope.

Lemma wf_init data loaded : wf (init data loaded).
Proof.
  split; [|split].
  - eexists. reflexivity.
  - intros p l H. unfold init in H. simpl in H.
    repeat (apply lookup_insert_Some in H;
            destruct H as [[_ <-]|[_ H]]; [eexists; reflexivity|]).
    rewrite lookup_empty in H. discriminate.
  - intros l H. simpl in *. apply in_seq in H.
    apply lookup_lt_is_Some. lia.
Qed.

Lemma wf_set_cycle_profile p st : wf st -> wf (snd (set_cycle_profile p st)).
Proof.
  intros (Ha & Hc & Ho). unfold set_cycle_profile.
  destruct (CYCLE_SETTINGS st !! p) as [l|] eqn:E; simpl.
  - split; [|split]; try assumption.
    unfold active_settings. simpl. exact (Hc p l E).
  - split; [|split]; assumption.
Qed.

Lemma wf_set_custom_cycle_settings g r k st :
  wf st -> wf (set_custom_cycle_settings g r k st).
Proof.
  intros (Ha & Hc & Ho). split; [|split]; simpl.
  - unfold active_settings. simpl.
    destruct (String.eqb (cycle_profile st) "custom").
    + rewrite lookup_app_r by lia. rewrite Nat.sub_diag. eexists. reflexivity.
    + destruct Ha as [s Hs]. unfold active_settings in Hs.
      rewrite (lookup_app_l_Some _ _ _ _ Hs). eexists. reflexivity.
  - intros p l H. apply lookup_insert_Some in H.
    destruct H as [[_ <-]|[_ H]].
    + rewrite lookup_app_r by lia. rewrite Nat.sub_diag. eexists. reflexivity.
    + destruct (Hc p l H) as [s Hs].
      rewrite (lookup_app_l_Some _ _ _ _ Hs). eexists. reflexivity.
  - exact Ho.
Qed.

(** C7.  [set_cycle_profile p] on a name that [CYCLE_SETTINGS] knows makes
    [p] the active profile, makes its dict the active settings, and returns
    [True]; on any other name it returns [False] and the state (the active
    profile name and the active settings among the rest) is exactly the one
    before the call.  The function is total: no name makes it raise.  After
    [__init__] the known names are default, conservative, aggressive and
    custom. *)
Theorem set_cycle_profile_spec (p : string) (st : State) :
  (forall l : loc,
     CYCLE_SETTINGS st !! p = Some l ->
     exists st',
       set_cycle_profile p st = (true, st')
       /\ cycle_profile st' = p
       /\ cycle_settings st' = l
       /\ active_settings st' = settings_store st !! l
       /\ settings_store st' = settings_store st
       /\ CYCLE_SETTINGS st' = CYCLE_SETTINGS st)
  /\ (CYCLE_SETTINGS st !! p = None ->
      set_cycle_profile p st = (false, st)
      /\ cycle_profile (snd (set_cycle_profile p st)) = cycle_profile st
      /\ active_settings (snd (set_cycle_profile p st)) = active_settings st)
  /\ (forall data loaded,
        dom (CYCLE_SETTINGS (init data loaded))
        = ({["default"; "conservative"; "aggressive"; "custom"]} : gset string)).
Proof.
  split; [|split].
  - intros l H. unfold set_cycle_profile. rewrite H.
    eexists. split; [reflexivity|]. repeat split; reflexivity.
  - intro H. unfold set_cycle_profile. rewrite H. repeat split; reflexivity.
  - intros data loaded. unfold init. simpl.
    rewrite !dom_insert_L, dom_empty_L. set_solver.
Qed.

Lemma set_cycle_profile_spec_witness :
  CYCLE_SETTINGS (init [] []) !! "aggressive"%string = Some 2%nat
  /\ CYCLE_SETTINGS (init [] []) !! "turbo"%string = None
  /\ (exists st',
        set_cycle_profile "aggressive" (init [] []) = (true, st')
        /\ active_settings st' = Some aggressive_settings)
  /\ set_cycle_profile "turbo" (init [] []) = (false, init [] []).
Proof.
  assert (H1 : CYCLE_SETTINGS (init [] []) !! "aggressive"%string = Some 2%nat)
    by reflexivity.
  assert (H2 : CYCLE_SETTINGS (init [] []) !! "turbo"%string = None)
    by reflexivity.
  split; [exact H1|]. split; [exact H2|]. split.
  - destruct (proj1 (set_cycle_profile_spec "aggressive" (init [] [])) _ H1)
      as (st' & Hs & _ & _ & Ha & _).
    exists st'. split; [exact Hs|]. rewrite Ha. reflexivity.
  - exact (proj1 (proj1 (proj2 (set_cycle_profile_spec "turbo" (init [] [])))
                        H2)).
Defined.

(** C10.  [set_custom_cycle_settings] always rebinds
    [CYCLE_SETTINGS["custom"]] to a dict with the three given parameters
    and leaves the other profiles and the active profile name alone.  The
    settings that the next classification reads are the new ones when the
    active profile is custom; under any other active profile
    [self.cycle_settings] still refers to the same, unchanged dict. *)
Theorem set_custom_cycle_settings_spec (g r k : Q) (st : State) :
  let st' := set_custom_cycle_settings g r k st in
  (exists l,
     CYCLE_SETTINGS st' !! "custom"%string = Some l
     /\ settings_store st' !! l = Some (mkSettings g r k))
  /\ (forall p : string,
        p <> "custom"%string -> CYCLE_SETTINGS st' !! p = CYCLE_SETTINGS st !! p)
  /\ (forall l s,
        settings_store st !! l = Some s -> settings_store st' !! l = Some s)
  /\ cycle_profile st' = cycle_profile st
  /\ (cycle_profile st = "custom"%string ->
      active_settings st' = Some (mkSettings g r k))
  /\ (cycle_profile st <> "custom"%string ->
      cycle_settings st' = cycle_settings st
      /\ (is_Some (active_settings st) ->
          active_settings st' = active_settings st)).
Proof.
  simpl. split; [|split; [|split; [|split; [|split]]]].
  - exists (length (settings_store st)). simpl. split.
    + apply lookup_insert_eq.
    + rewrite lookup_app_r by lia. rewrite Nat.sub_diag. reflexivity.
  - intros p Hp. simpl. apply lookup_insert_ne. congruence.
  - intros l s H. simpl. apply lookup_app_l_Some. exact H.
  - reflexivity.
  - intro H. unfold active_settings. simpl. rewrite H. simpl.
    rewrite lookup_app_r by lia. rewrite Nat.sub_diag. reflexivity.
  - intro H. apply String.eqb_neq in H.
    unfold active_settings. simpl. rewrite H. split; [reflexivity|].
    intros [s Hs]. rewrite Hs. apply lookup_app_l_Some. exact Hs.
Qed.

Lemma set_custom_cycle_settings_spec_witness :
  cycle_profile (init [] []) <> "custom"%string
  /\ is_Some (active_settings (init [] []))
  /\ active_settings (set_custom_cycle_settings 0.04 0.12 3 (init [] []))
     = Some default_settings
  /\ active_settings
       (set_custom_cycle_settings 0.04 0.12 3
          (snd (set_cycle_profile "custom" (init [] []))))
     = Some (mkSettings 0.04 0.12 3).
Proof.
  assert (H1 : cycle_profile (init [] []) <> "custom"%string) by discriminate.
  assert (H2 : is_Some (active_settings (init [] [])))
    by (eexists; reflexivity).
  split; [exact H1|]. split; [exact H2|]. split.
  - pose proof (set_custom_cycle_settings_spec 0.04 0.12 3 (init [] [])) as H.
    simpl in H. destruct H as (_ & _ & _ & _ & _ & H).
    destruct (H H1) as [_ Ha]. rewrite (Ha H2). reflexivity.
  - pose proof (set_custom_cycle_settings_spec 0.04 0.12 3
                  (snd (set_cycle_profile "custom" (init [] [])))) as H.
    simpl in H. destruct H as (_ & _ & _ & _ & H & _).
    apply H. reflexivity.
Defined.

End Profiles.

(** ** The market matcher *)

Section Matcher.
Import Py Config Utils Feed Records Steps.
Local Open Scope Q_scope.

Lemma fold_left_flat_map {A B C : Type} (f : C -> B -> C) (g : A -> list B)
    (l : list A) (c : C) :
  fold_left f (flat_map g l) c
  = fold_left (fun c a => fold_left f (g a) c) l c.
Proof.
  revert c. induction l as [|a l IH]; intro c; simpl; [reflexivity|].
  rewrite fold_left_app. apply IH.
Qed.

Lemma collect_odds_group bookmakers market_type :
  collect_odds bookmakers market_type
  = group (quotes_in_order bookmakers market_type) [].
Proof.
  unfold collect_odds, group, quotes_in_order.
  rewrite fold_left_flat_map.
  generalize (@nil (string * list Entry)).
  induction bookmakers as [|b bs IH]; intro acc; simpl; [reflexivity|].
  rewrite <- IH. f_equal.
  rewrite fold_left_flat_map. generalize acc. clear.
  induction (markets b) as [|m ms IHm]; intro acc; simpl; [reflexivity|].
  rewrite <- IHm. f_equal.
  destruct (String.eqb (m_key m) market_type); [|reflexivity].
  generalize acc. clear.
  induction (outcomes m) as [|o os IHo]; intro acc; simpl; [reflexivity|].
  apply IHo.
Qed.

Lemma get_append_odds team t e all_odds :
  get team (append_odds t e all_odds)
  = if String.eqb t team
    then Some (default [] (get team all_odds) ++ [e])
    else get team all_odds.
Proof.
  induction all_odds as [|[t' es] rest IH]; simpl.
  - destruct (String.eqb t team); reflexivity.
  - destruct (String.eqb t' t) eqn:Et; simpl.
    + apply String.eqb_eq in Et. subst t'.
      destruct (String.eqb t team); reflexivity.
    + destruct (String.eqb t' team) eqn:Et'.
      * apply String.eqb_eq in Et'. subst t'.
        rewrite String.eqb_sym in Et. rewrite Et. reflexivity.
      * exact IH.
Qed.

Lemma get_group team quotes all_odds :
  get team (group quotes all_odds)
  = match get team all_odds, quotes_of team quotes with
    | None, [] => None
    | o, es => Some (default [] o ++ es)
    end.
Proof.
  revert all_odds. unfold group.
  induction quotes as [|[t e] qs IH]; intro all_odds; simpl.
  - destruct (get team all_odds); simpl; [rewrite app_nil_r|]; reflexivity.
  - rewrite IH, get_append_odds. unfold quotes_of. simpl.
    rewrite String.eqb_sym.
    destruct (String.eqb team t); simpl.
    + destruct (get team all_odds); simpl; rewrite <- ?app_assoc; reflexivity.
    + reflexivity.
Qed.








End Matcher.

(** ** Reasoning about code that allocates *)

Section Store.
Import Py Config Utils Feed Records Steps Analyzer.
Local Open Scope Q_scope.

Lemma extends_refl st : extends st st.
Proof. repeat split; auto. Qed.

Lemma extends_trans st1 st2 st3 :
  extends st1 st2 -> extends st2 st3 -> extends st1 st3.
Proof.
  intros (A1 & B1 & C1 & D1) (A2 & B2 & C2 & D2).
  repeat split; try congruence. auto.
Qed.

Lemma extends_active st st' :
  extends st st' -> active_settings st' = active_settings st.
Proof. intros (A & B & _). unfold active_settings. rewrite A, B. reflexivity. Qed.

Lemma all_refs_extends P acc st st' :
  extends st st' -> all_refs P acc st -> all_refs P acc st'.
Proof.
  intros (_ & _ & _ & H) Hacc l Hl.
  destruct (Hacc l Hl) as (o & Ho & HP). exists o. auto.
Qed.

Lemma all_refs_app P acc1 acc2 st :
  all_refs P acc1 st -> all_refs P acc2 st -> all_refs P (acc1 ++ acc2) st.
Proof.
  intros H1 H2 l Hl. apply in_app_or in Hl. destruct Hl; auto.
Qed.

Lemma all_refs_nil P st : all_refs P [] st.
Proof. intros l []. Qed.

Lemma bind_inv {A B : Type} (m : M A) (k : A -> M B) st b st'' :
  bind m k st = Some (b, st'') ->
  exists a st', m st = Some (a, st') /\ k a st' = Some (b, st'').
Proof.
  unfold bind. destruct (m st) as [[a st']|]; [|discriminate].
  intro H. exists a, st'. auto.
Qed.

Lemma ret_inv {A : Type} (a b : A) st st' :
  ret a st = Some (b, st') -> b = a /\ st' = st.
Proof. unfold ret. intro H. injection H as <- <-. auto. Qed.

Lemma lift_inv {A : Type} (o : option A) a st st' :
  lift o st = Some (a, st') -> o = Some a /\ st' = st.
Proof.
  unfold lift. destruct o; [|discriminate]. intro H. injection H as <- <-. auto.
Qed.

Lemma deref_inv l o st st' :
  deref l st = Some (o, st') -> opp_store st !! l = Some o /\ st' = st.
Proof. unfold deref. apply lift_inv. Qed.

Lemma get_settings_inv s st st' :
  get_settings st = Some (s, st') -> active_settings st = Some s /\ st' = st.
Proof. unfold get_settings. apply lift_inv. Qed.

Lemma alloc_inv o l st st' :
  alloc o st = Some (l, st') ->
  l = length (opp_store st)
  /\ st' = with_opp_store (opp_store st ++ [o]) st.
Proof. unfold alloc. intro H. injection H as <- <-. auto. Qed.

Lemma alloc_extends o st : extends st (with_opp_store (opp_store st ++ [o]) st).
Proof.
  repeat split. simpl. intros l o' H. apply lookup_app_l_Some. exact H.
Qed.

(** The rule for a loop: what each iteration keeps, the loop keeps. *)
Lemma for_each_inv {A B : Type} (f : A -> list B -> M (list B))
    (I : list B -> State -> Prop) (l : list A) :
  (forall x acc st acc' st',
     In x l -> I acc st -> f x acc st = Some (acc', st') -> I acc' st') ->
  forall acc st res st',
    I acc st -> for_each f l acc st = Some (res, st') -> I res st'.
Proof.
  induction l as [|x l IH]; intros Hf acc st res st' HI H; simpl in H.
  - apply ret_inv in H. destruct H as [-> ->]. exact HI.
  - apply bind_inv in H. destruct H as (acc1 & st1 & H1 & H2).
    apply (IH (fun y a s a' s' Hy => Hf y a s a' s' (or_intror Hy))
              acc1 st1 res st'); [|exact H2].
    apply (Hf x acc st acc1 st1); [left; reflexivity|exact HI|exact H1].
Qed.

(** What one side of the loop body of [analyze_cycle_opportunities] does:
    nothing, or it appends a reference to a new object, the copy of [opp]
    with the cycle info of a valid classification. *)
Lemma cycle_side_inv opp p is_back acc st acc' st' :
  cycle_side opp p is_back acc st = Some (acc', st') ->
  extends st st'
  /\ (acc' = acc
      \/ exists o s ci si,
           opp_store st !! opp = Some o
           /\ active_settings st = Some s
           /\ calculate_cycle_opportunity p is_back (green_target s)
                (max_red s) (Config.risk_reward_ratio s) = Some ci
           /\ is_valid ci = true
           /\ adjust_stake_for_cycle p is_back (green_target s)
                default_bankroll = Some si
           /\ acc' = acc ++ [length (opp_store st)]
           /\ opp_store st'
              = opp_store st ++ [set_cycle_info (update ci si) o]).
Proof.
  unfold cycle_side. intro H.
  apply bind_inv in H. destruct H as (s & st1 & Hs & H).
  apply get_settings_inv in Hs. destruct Hs as [Hs ->].
  apply bind_inv in H. destruct H as (ci & st1 & Hci & H).
  apply lift_inv in Hci. destruct Hci as [Hci ->].
  destruct (is_valid ci) eqn:Hv.
  - apply bind_inv in H. destruct H as (si & st1 & Hsi & H).
    apply lift_inv in Hsi. destruct Hsi as [Hsi ->].
    apply bind_inv in H. destruct H as (l & st1 & Hl & H).
    unfold copy in Hl.
    apply bind_inv in Hl. destruct Hl as (o & st2 & Ho & Hl).
    apply deref_inv in Ho. destruct Ho as [Ho ->].
    apply alloc_inv in Hl. destruct Hl as [-> ->].
    apply bind_inv in H. destruct H as ([] & st2 & Hw & H).
    apply ret_inv in H. destruct H as [-> ->].
    unfold store_cycle_info in Hw. simpl in Hw.
    rewrite lookup_app_r in Hw by lia. rewrite Nat.sub_diag in Hw.
    simpl in Hw. injection Hw as <-.
    rewrite insert_app_r_alt by lia. rewrite Nat.sub_diag. simpl.
    split.
    + repeat split. simpl. intros l o' H. apply lookup_app_l_Some. exact H.
    + right. exists o, s, ci, si. repeat split; assumption.
  - apply ret_inv in H. destruct H as [-> ->].
    split; [apply extends_refl | left; reflexivity].
Qed.

End Store.

(** ** Records built by the matcher and by the cycle analysis *)

Section Passes.
Import Py Config Utils Feed Records Steps Analyzer.
Local Open Scope Q_scope.

Lemma div_inv (x y d : Q) : div x y = Some d -> ~ y == 0 /\ d = x / y.
Proof.
  unfold div. destruct (Qeq_bool y 0) eqn:E; [discriminate|].
  intro H. injection H as <-. split; [|reflexivity].
  intro Hy. apply Qeq_bool_iff in Hy. congruence.
Qed.

Lemma opportunity_of_pair_inv ev team now best_back best_lay opp :
  opportunity_of_pair ev team now best_back best_lay = Some (Some opp) ->
  to_decimal (e_price best_back) = Some (q_price (back opp))
  /\ to_decimal (e_price best_lay) = Some (q_price (lay opp))
  /\ emitted opp.
Proof.
  unfold opportunity_of_pair.
  destruct (to_decimal (e_price best_back)) as [b|]; [simpl|discriminate].
  destruct (to_decimal (e_price best_lay)) as [l|]; [simpl|discriminate].
  destruct (Qlt_bool b l) eqn:Hlt; [|discriminate].
  destruct (div (l - b) b) as [d|] eqn:Hd; [simpl|discriminate].
  destruct (Qle_bool MIN_ODDS_DIFFERENCE d) eqn:Hmin; [|discriminate].
  destruct (identify_arbitrage b l) as [arb margin].
  destruct (_generate_recommendation b l (decimal_to_probability b) arb);
    [simpl|discriminate].
  intro H. injection H as <-. simpl.
  apply div_inv in Hd. destruct Hd as [Hb ->].
  apply Qlt_bool_iff in Hlt. apply Qle_bool_iff in Hmin.
  repeat split; assumption.
Qed.

Lemma opportunity_of_team_inv ev now team entries opp :
  opportunity_of_team ev now team entries = Some (Some opp) -> emitted opp.
Proof.
  unfold opportunity_of_team.
  destruct (best_pair entries) as [[bb bl]|]; [|discriminate].
  intro H. apply opportunity_of_pair_inv in H. tauto.
Qed.

Lemma phase1_start st0 st : extends st0 st -> phase1 st0 [] st.
Proof. intro H. split; [exact H|apply all_refs_nil]. Qed.

Lemma market_body_phase1 st0 ev now item acc st acc' st' :
  phase1 st0 acc st ->
  market_body ev now item acc st = Some (acc', st') ->
  phase1 st0 acc' st'.
Proof.
  intros [He Ha] H. unfold market_body in H.
  apply bind_inv in H. destruct H as (r & st1 & Hr & H).
  apply lift_inv in Hr. destruct Hr as [Hr ->].
  destruct r as [opp|].
  - apply bind_inv in H. destruct H as (l & st1 & Hl & H).
    apply alloc_inv in Hl. destruct Hl as [-> ->].
    apply ret_inv in H. destruct H as [-> ->].
    pose proof (alloc_extends opp st) as Hx.
    split; [exact (extends_trans _ _ _ He Hx)|].
    apply all_refs_app; [exact (all_refs_extends _ _ _ _ Hx Ha)|].
    intros l [<-|[]]. exists opp. split.
    + simpl. rewrite lookup_app_r by lia. rewrite Nat.sub_diag. reflexivity.
    + exact (opportunity_of_team_inv _ _ _ _ _ Hr).
  - apply ret_inv in H. destruct H as [-> ->]. split; assumption.
Qed.

Lemma analyze_market_phase1 st0 ev now bookmakers mt st res st' :
  extends st0 st ->
  _analyze_market ev now bookmakers mt st = Some (res, st') ->
  phase1 st0 res st'.
Proof.
  intros He H. unfold _analyze_market in H.
  refine (for_each_inv _ (phase1 st0) _ _ _ _ _ _ (phase1_start _ _ He) H).
  intros x acc s acc' s' _. apply market_body_phase1.
Qed.

Lemma extend_market_phase1 st0 ev now bookmakers mt acc st acc' st' :
  phase1 st0 acc st ->
  extend_market ev now bookmakers mt acc st = Some (acc', st') ->
  phase1 st0 acc' st'.
Proof.
  intros [He Ha] H. unfold extend_market in H.
  apply bind_inv in H. destruct H as (r & st1 & Hr & H).
  apply ret_inv in H. destruct H as [-> ->].
  pose proof (analyze_market_phase1 st _ _ _ _ _ _ _ (extends_refl st) Hr)
    as [Hx Hr'].
  split; [exact (extends_trans _ _ _ He Hx)|].
  apply all_refs_app; [exact (all_refs_extends _ _ _ _ Hx Ha)|exact Hr'].
Qed.

Lemma first_phase_phase1 now st res st' :
  for_each (sport_body now) (odds_data st) [] st = Some (res, st') ->
  phase1 st res st'.
Proof.
  intro H.
  refine (for_each_inv _ (phase1 st) _ _ _ _ _ _
            (phase1_start _ _ (extends_refl st)) H).
  intros item acc s acc' s' _ HI Hs. unfold sport_body in Hs.
  refine (for_each_inv _ (phase1 st) _ _ _ _ _ _ HI Hs).
  intros event acc1 s1 acc1' s1' _ HI1 He. unfold event_body in He.
  refine (for_each_inv _ (phase1 st) _ _ _ _ _ _ HI1 He).
  intros mt acc2 s2 acc2' s2' _. apply extend_market_phase1.
Qed.

Lemma calculate_cycle_opportunity_type_odds p is_back g r k ci :
  calculate_cycle_opportunity p is_back g r k = Some ci ->
  type ci = (if is_back then "BACK" else "LAY")%string /\ odds ci = p.
Proof.
  unfold calculate_cycle_opportunity. destruct is_back; simpl.
  - intro H. injection H as <-. split; reflexivity.
  - destruct (div 1 p); [simpl|discriminate].
    destruct (div (p - 1) p); [simpl|discriminate].
    intro H. injection H as <-. split; reflexivity.
Qed.

Lemma phase2_extends s opps st0 acc st st' :
  extends st st' -> phase2 s opps st0 acc st -> phase2 s opps st0 acc st'.
Proof.
  intros Hx [He Ha]. split; [exact (extends_trans _ _ _ He Hx)|].
  intros l Hl. destruct (Ha l Hl) as (Hfresh & o & Ho & Hc & l0 & src & ci & Hin & Hsrc & Heq).
  destruct Hx as (_ & _ & _ & Hx).
  split; [exact Hfresh|]. exists o. split; [auto|]. split; [exact Hc|].
  exists l0, src, ci. auto.
Qed.

Lemma extends_length st st' :
  extends st st' -> (length (opp_store st) <= length (opp_store st'))%nat.
Proof.
  intros (_ & _ & _ & H).
  destruct (length (opp_store st)) as [|n] eqn:E; [lia|].
  destruct (lookup_lt_is_Some_2 (opp_store st) n) as [o Ho]; [lia|].
  apply H in Ho. apply lookup_lt_Some in Ho. lia.
Qed.

Lemma cycle_side_phase2 s opps st0 opp p (is_back : bool) acc st acc' st' :
  In opp opps ->
  active_settings st0 = Some s ->
  (forall o, opp_store st !! opp = Some o ->
             p = if is_back then q_price (back o) else q_price (lay o)) ->
  phase2 s opps st0 acc st ->
  cycle_side opp p is_back acc st = Some (acc', st') ->
  phase2 s opps st0 acc' st'.
Proof.
  intros Hin Hs Hp HI H. apply cycle_side_inv in H. destruct H as [Hx H].
  pose proof (phase2_extends _ _ _ _ _ _ Hx HI) as [He Ha].
  destruct H as [->|(o & s' & ci & si & Ho & Hs' & Hci & Hv & Hsi & -> & Hst)].
  - split; assumption.
  - split; [exact He|]. intros l Hl. apply in_app_or in Hl.
    destruct Hl as [Hl|[<-|[]]]; [exact (Ha l Hl)|].
    destruct HI as [He0 _].
    rewrite (extends_active _ _ He0), Hs in Hs'. injection Hs' as <-.
    split; [exact (extends_length _ _ He0)|].
    exists (set_cycle_info (update ci si) o). split; [|split].
    + rewrite Hst. rewrite lookup_app_r by lia.
      rewrite Nat.sub_diag. reflexivity.
    + pose proof (calculate_cycle_opportunity_type_odds _ _ _ _ _ _ Hci)
        as [Ht Hod].
      specialize (Hp o Ho).
      exists (update ci si). simpl. split; [reflexivity|]. split; [exact Hv|].
      rewrite Ht, Hod. destruct is_back; subst p.
      * split; [left; reflexivity|]. split; [|discriminate].
        intros _. split; [reflexivity|]. exists ci. auto.
      * split; [right; reflexivity|]. split; [discriminate|].
        intros _. split; [reflexivity|]. exists ci. auto.
    + exists opp, o, (update ci si). split; [exact Hin|]. split; [|reflexivity].
      destruct Hx as (_ & _ & _ & Hx). auto.
Qed.

Lemma cycle_body_phase2 s opps st0 opp acc st acc' st' :
  In opp opps ->
  active_settings st0 = Some s ->
  phase2 s opps st0 acc st ->
  cycle_body opp acc st = Some (acc', st') ->
  phase2 s opps st0 acc' st'.
Proof.
  intros Hin Hs HI H. unfold cycle_body in H.
  apply bind_inv in H. destruct H as (o & st1 & Ho & H).
  apply deref_inv in Ho. destruct Ho as [Ho ->].
  apply bind_inv in H. destruct H as (acc1 & st1 & H1 & H).
  assert (HI1 : phase2 s opps st0 acc1 st1).
  { destruct (Qle_bool (q_price (back o)) MAX_BACK_ODDS).
    - refine (cycle_side_phase2 _ _ _ _ _ _ _ _ _ _ Hin Hs _ HI H1).
      intros o' Ho'. rewrite Ho in Ho'. injection Ho' as <-. reflexivity.
    - apply ret_inv in H1. destruct H1 as [-> ->]. exact HI. }
  apply bind_inv in H. destruct H as (o2 & st2 & Ho2 & H).
  apply deref_inv in Ho2. destruct Ho2 as [Ho2 ->].
  destruct (Qle_bool MIN_LAY_ODDS (q_price (lay o2))).
  - refine (cycle_side_phase2 _ _ _ _ _ _ _ _ _ _ Hin Hs _ HI1 H).
    intros o' Ho'. rewrite Ho2 in Ho'. injection Ho' as <-. reflexivity.
  - apply ret_inv in H. destruct H as [-> ->]. exact HI1.
Qed.

Lemma analyze_cycle_opportunities_phase2 s opps st res st' :
  active_settings st = Some s ->
  analyze_cycle_opportunities opps st = Some (res, st') ->
  phase2 s opps st res st'.
Proof.
  intros Hs H. unfold analyze_cycle_opportunities in H.
  refine (for_each_inv _ (phase2 s opps st) _ _ _ _ _ _ _ H).
  - intros opp acc s1 acc' s1' Hin. apply cycle_body_phase2; assumption.
  - split; [apply extends_refl|]. intros l [].
Qed.

(** The cycle analysis reads the active settings first, so a run that
    collected something had settings to read. *)
Lemma analyze_cycle_opportunities_settings opps st res st' l :
  analyze_cycle_opportunities opps st = Some (res, st') ->
  In l res -> is_Some (active_settings st).
Proof.
  destruct (active_settings st) as [s|] eqn:Hs; [eexists; reflexivity|].
  intros H Hl. exfalso. unfold analyze_cycle_opportunities in H.
  assert (HI : extends st st' /\ res = []).
  { refine (for_each_inv _ (fun acc s => extends st s /\ acc = []) _ _ _ _ _ _
              (conj (extends_refl st) eq_refl) H).
    intros opp acc s1 acc' s1' _ [He ->] Hb.
    assert (Hn : active_settings s1 = None)
      by (rewrite (extends_active _ _ He); exact Hs).
    assert (Hside : forall p b acc2 st2,
              cycle_side opp p b [] s1 = Some (acc2, st2) -> False).
    { intros p b acc2 st2 Hc. unfold cycle_side in Hc.
      apply bind_inv in Hc. destruct Hc as (s & st3 & Hg & _).
      apply get_settings_inv in Hg. destruct Hg as [Hg _]. congruence. }
    unfold cycle_body in Hb.
    apply bind_inv in Hb. destruct Hb as (o & st1 & Ho & Hb).
    apply deref_inv in Ho. destruct Ho as [Ho ->].
    apply bind_inv in Hb. destruct Hb as (acc1 & st1 & H1 & Hb).
    destruct (Qle_bool (q_price (back o)) MAX_BACK_ODDS);
      [exfalso; exact (Hside _ _ _ _ H1)|].
    apply ret_inv in H1. destruct H1 as [-> ->].
    apply bind_inv in Hb. destruct Hb as (o2 & st2 & Ho2 & Hb).
    apply deref_inv in Ho2. destruct Ho2 as [Ho2 ->].
    destruct (Qle_bool MIN_LAY_ODDS (q_price (lay o2)));
      [exfalso; exact (Hside _ _ _ _ Hb)|].
    apply ret_inv in Hb. destruct Hb as [-> ->]. auto. }
  destruct HI as [_ ->]. destruct Hl.
Qed.

End Passes.

(** ** What a pass produces *)

Section Results.
Import Py Config Utils Feed Records Steps Analyzer.
Local Open Scope Q_scope.

(** *** One call of [_analyze_market] sees one market type *)

Lemma append_odds_of_type mt team e all_odds :
  market_type e = mt ->
  (forall item, In item all_odds -> of_type mt (snd item)) ->
  forall item, In item (append_odds team e all_odds) -> of_type mt (snd item).
Proof.
  intros He. induction all_odds as [|[t es] rest IH]; intros Hall item Hin.
  - destruct Hin as [<-|[]]. intros e' [<-|[]]. exact He.
  - simpl in Hin. destruct (String.eqb t team).
    + destruct Hin as [<-|Hin].
      * intros e' He'. simpl in He'. apply in_app_or in He'.
        destruct He' as [He'|[<-|[]]]; [|exact He].
        exact (Hall (t, es) (or_introl eq_refl) e' He').
      * apply Hall. right. exact Hin.
    + destruct Hin as [<-|Hin].
      * apply Hall. left. reflexivity.
      * apply IH; [|exact Hin]. intros i Hi. apply Hall. right. exact Hi.
Qed.

Lemma quotes_in_order_type bookmakers mt q :
  In q (quotes_in_order bookmakers mt) -> market_type (snd q) = mt.
Proof.
  unfold quotes_in_order. intro H.
  apply in_flat_map in H. destruct H as (b & _ & H).
  apply in_flat_map in H. destruct H as (m & _ & H).
  destruct (String.eqb (m_key m) mt); [|destruct H].
  apply in_map_iff in H. destruct H as (o & <- & _). reflexivity.
Qed.

Lemma collect_odds_of_type bookmakers mt item :
  In item (collect_odds bookmakers mt) -> of_type mt (snd item).
Proof.
  rewrite collect_odds_group. unfold group.
  assert (H0 : forall i, In i (@nil (string * list Entry)) -> of_type mt (snd i))
    by (intros i []).
  revert H0. generalize (@nil (string * list Entry)).
  pose proof (quotes_in_order_type bookmakers mt) as Hq.
  induction (quotes_in_order bookmakers mt) as [|q qs IH]; intros acc Hacc.
  - exact (Hacc item).
  - simpl. apply IH.
    + intros q' Hq'. apply Hq. right. exact Hq'.
    + apply append_odds_of_type; [|exact Hacc]. apply Hq. left. reflexivity.
Qed.

Lemma filter_none {A : Type} (f : A -> bool) (l : list A) :
  (forall x, In x l -> f x = false) -> List.filter f l = [].
Proof.
  induction l as [|x l IH]; intro H; simpl; [reflexivity|].
  rewrite (H x (or_introl eq_refl)). apply IH.
  intros y Hy. apply H. right. exact Hy.
Qed.

Lemma best_pair_of_type mt entries : of_type mt entries -> best_pair entries = None.
Proof.
  intro H. unfold best_pair, select_best.
  destruct (String.eqb mt "h2h") eqn:E.
  - apply String.eqb_eq in E. subst mt.
    assert (Hl : lay_odds entries = []).
    { apply filter_none. intros e He. rewrite (H e He). reflexivity. }
    rewrite Hl. destruct (back_odds entries); reflexivity.
  - assert (Hb : back_odds entries = []).
    { apply filter_none. intros e He. rewrite (H e He). exact E. }
    rewrite Hb. reflexivity.
Qed.

(** Each call of [_analyze_market] collects the quotes of one market type
    only, so no outcome has both a back side and a lay side: no pair is
    chosen and the call returns the empty list, creating nothing. *)
Lemma analyze_market_nothing ev now bookmakers mt st :
  _analyze_market ev now bookmakers mt st = Some ([], st).
Proof.
  unfold _analyze_market.
  pose proof (collect_odds_of_type bookmakers mt) as H.
  induction (collect_odds bookmakers mt) as [|item rest IH]; [reflexivity|].
  simpl. unfold bind at 1. unfold market_body at 1.
  unfold opportunity_of_team.
  rewrite (best_pair_of_type mt) by (apply H; left; reflexivity).
  simpl. apply IH. intros i Hi. apply H. right. exact Hi.
Qed.

Lemma first_phase_nothing now data st :
  for_each (sport_body now) data [] st = Some ([], st).
Proof.
  induction data as [|[sport events] data IH]; [reflexivity|].
  simpl. unfold bind at 1.
  assert (He : sport_body now (sport, events) [] st = Some ([], st)).
  { unfold sport_body. simpl.
    induction events as [|event events IHe]; [reflexivity|].
    simpl. unfold bind at 1. unfold event_body at 1. simpl.
    unfold bind at 1. unfold extend_market at 1. unfold bind at 1.
    rewrite analyze_market_nothing. simpl.
    unfold bind at 1. unfold extend_market at 1. unfold bind at 1.
    rewrite analyze_market_nothing. simpl. exact IHe. }
  rewrite He. exact IH.
Qed.

(** So the whole pass stores the empty list. *)
Lemma analyze_back_lay_opportunities_nothing now st :
  analyze_back_lay_opportunities now st = Some ([], with_opportunities [] st).
Proof.
  unfold analyze_back_lay_opportunities, bind.
  rewrite first_phase_nothing. reflexivity.
Qed.

(** *** The cycle analysis returns *)

Lemma cycle_side_total opp p is_back acc st o :
  opp_store st !! opp = Some o ->
  is_Some (active_settings st) ->
  (is_back = false -> MIN_LAY_ODDS <= p) ->
  exists acc' st', cycle_side opp p is_back acc st = Some (acc', st').
Proof.
  intros Ho [s Hs] Hp.
  unfold cycle_side, bind, get_settings, lift. rewrite Hs.
  assert (Hc : exists ci,
             calculate_cycle_opportunity p is_back (green_target s)
               (max_red s) (Config.risk_reward_ratio s) = Some ci).
  { unfold calculate_cycle_opportunity. destruct is_back; simpl.
    - eexists. reflexivity.
    - assert (Hnz : ~ p == 0).
      { specialize (Hp eq_refl). unfold MIN_LAY_ODDS in Hp. lra. }
      rewrite !(div_Some _ _ Hnz). simpl. eexists. reflexivity. }
  destruct Hc as [ci ->]. destruct (is_valid ci); [|eexists _, _; reflexivity].
  assert (Ha : exists si,
             adjust_stake_for_cycle p is_back (green_target s)
               default_bankroll = Some si).
  { assert (HB : ~ default_bankroll == 0) by discriminate.
    unfold adjust_stake_for_cycle. destruct is_back.
    - destruct (Qlt_bool 0 (p - 1)); [|eexists; reflexivity].
      rewrite (div_Some _ _ HB). eexists. reflexivity.
    - rewrite (div_Some _ _ HB). eexists. reflexivity. }
  destruct Ha as [si ->].
  unfold copy, bind, deref, lift. rewrite Ho.
  unfold alloc, store_cycle_info. simpl.
  rewrite lookup_app_r by lia. rewrite Nat.sub_diag. simpl.
  eexists _, _. reflexivity.
Qed.

Lemma analyze_cycle_opportunities_total opps st :
  (forall l, In l opps -> is_Some (opp_store st !! l)) ->
  is_Some (active_settings st) ->
  exists res st', analyze_cycle_opportunities opps st = Some (res, st').
Proof.
  unfold analyze_cycle_opportunities. generalize (@nil loc).
  revert st. induction opps as [|opp opps IH]; intros st acc Hrefs Hs.
  - eexists _, _. reflexivity.
  - simpl.
    assert (Hb : exists acc' st',
               cycle_body opp acc st = Some (acc', st') /\ extends st st').
    { destruct (Hrefs opp (or_introl eq_refl)) as [o Ho].
      unfold cycle_body, bind at 1, deref, lift. rewrite Ho.
      assert (H1 : exists acc1 st1,
                 (if Qle_bool (q_price (back o)) MAX_BACK_ODDS
                  then cycle_side opp (q_price (back o)) true acc
                  else ret acc) st = Some (acc1, st1) /\ extends st st1).
      { destruct (Qle_bool (q_price (back o)) MAX_BACK_ODDS).
        - destruct (cycle_side_total opp (q_price (back o)) true acc st o Ho Hs)
            as (a & s & H); [discriminate|].
          exists a, s. split; [exact H|]. apply (cycle_side_inv _ _ _ _ _ _ _ H).
        - exists acc, st. split; [reflexivity|apply extends_refl]. }
      destruct H1 as (acc1 & st1 & H1 & Hx1).
      unfold bind at 1. rewrite H1.
      assert (Ho1 : opp_store st1 !! opp = Some o)
        by (destruct Hx1 as (_ & _ & _ & Hx1); auto).
      unfold bind at 1. rewrite Ho1.
      destruct (Qle_bool MIN_LAY_ODDS (q_price (lay o))) eqn:El.
      - apply Qle_bool_iff in El.
        destruct (cycle_side_total opp (q_price (lay o)) false acc1 st1 o Ho1)
          as (a & s & H); [|intros _; exact El|].
        + rewrite (extends_active _ _ Hx1). exact Hs.
        + exists a, s. split; [exact H|].
          eapply extends_trans; [exact Hx1|].
          apply (cycle_side_inv _ _ _ _ _ _ _ H).
      - exists acc1, st1. split; [reflexivity|exact Hx1]. }
    destruct Hb as (acc' & st' & Hb & Hx).
    unfold bind at 1. rewrite Hb. apply IH.
    + intros l Hl. destruct (Hrefs l (or_intror Hl)) as [o Ho].
      exists o. destruct Hx as (_ & _ & _ & Hx). auto.
    + rewrite (extends_active _ _ Hx). exact Hs.
Qed.

(** *** The cycle analysis works on copies *)

Lemma analyze_cycle_opportunities_extends opps st res st' :
  analyze_cycle_opportunities opps st = Some (res, st') ->
  extends st st'
  /\ forall l, In l res -> (length (opp_store st) <= l)%nat.
Proof.
  unfold analyze_cycle_opportunities. intro H.
  refine (for_each_inv _
            (fun acc s => extends st s
               /\ forall l, In l acc -> (length (opp_store st) <= l)%nat)
            _ _ _ _ _ _ _ H).
  - intros opp acc s acc' s' _ [He Ha] Hb.
    assert (Hside : forall p b a1 s1 a2 s2,
              extends st s1 ->
              (forall l, In l a1 -> (length (opp_store st) <= l)%nat) ->
              cycle_side opp p b a1 s1 = Some (a2, s2) ->
              extends st s2
              /\ forall l, In l a2 -> (length (opp_store st) <= l)%nat).
    { intros p b a1 s1 a2 s2 He1 Ha1 Hc.
      apply cycle_side_inv in Hc. destruct Hc as [Hx Hc].
      split; [exact (extends_trans _ _ _ He1 Hx)|].
      destruct Hc as [->|(_ & _ & _ & _ & _ & _ & _ & _ & _ & -> & _)];
        [exact Ha1|].
      intros l Hl. apply in_app_or in Hl.
      destruct Hl as [Hl|[<-|[]]]; [exact (Ha1 l Hl)|].
      exact (extends_length _ _ He1). }
    unfold cycle_body in Hb.
    apply bind_inv in Hb. destruct Hb as (o & st1 & Ho & Hb).
    apply deref_inv in Ho. destruct Ho as [Ho ->].
    apply bind_inv in Hb. destruct Hb as (acc1 & st1 & H1 & Hb).
    assert (HI1 : extends st st1
                  /\ forall l, In l acc1 -> (length (opp_store st) <= l)%nat).
    { destruct (Qle_bool (q_price (back o)) MAX_BACK_ODDS).
      - exact (Hside _ _ _ _ _ _ He Ha H1).
      - apply ret_inv in H1. destruct H1 as [-> ->]. auto. }
    destruct HI1 as [He1 Ha1].
    apply bind_inv in Hb. destruct Hb as (o2 & st2 & Ho2 & Hb).
    apply deref_inv in Ho2. destruct Ho2 as [Ho2 ->].
    destruct (Qle_bool MIN_LAY_ODDS (q_price (lay o2))).
    + exact (Hside _ _ _ _ _ _ He1 Ha1 Hb).
    + apply ret_inv in Hb. destruct Hb as [-> ->]. auto.
  - split; [apply extends_refl|]. intros l [].
Qed.

(** *** The stored list after a pass *)

Lemma analyze_back_lay_opportunities_emitted now st res st' :
  analyze_back_lay_opportunities now st = Some (res, st') ->
  opportunities st' = res /\ all_refs emitted res st'.
Proof.
  unfold analyze_back_lay_opportunities. intro H.
  apply bind_inv in H. destruct H as (opps & st1 & H1 & H).
  apply bind_inv in H. destruct H as (copps & st2 & H2 & H).
  injection H as <- <-.
  apply first_phase_phase1 in H1. destruct H1 as [_ H1].
  apply analyze_cycle_opportunities_extends in H2. destruct H2 as [H2 _].
  split; [reflexivity|].
  exact (all_refs_extends _ _ _ _ H2 H1).
Qed.

Lemma get_cycle_opportunities_none st :
  all_refs (fun o => cycle_info o = None) (opportunities st) st ->
  get_cycle_opportunities st = Some ([], st).
Proof.
  unfold get_cycle_opportunities. generalize (@nil loc).
  induction (opportunities st) as [|l ls IH]; intros acc H; [reflexivity|].
  simpl. destruct (H l (or_introl eq_refl)) as (o & Ho & Hn).
  unfold bind at 1, keep_cycle, bind at 1, deref, lift. rewrite Ho.
  unfold has_cycle_info. rewrite Hn. simpl.
  apply IH. intros l' Hl'. apply H. right. exact Hl'.
Qed.

End Results.

(** ** What the matcher selects *)

Section MatcherProperties.
Import Py Config Utils Feed Records Steps.
Local Open Scope Q_scope.



End MatcherProperties.

(** ** Properties of the passes *)

Section PassProperties.
Import Py Config Utils Feed Records Steps Analyzer.
Local Open Scope Q_scope.

(** C4.  A record comes out of the pair step of [_analyze_market] only
    with the decimal prices of the chosen pair as its back and lay price,
    with back price < lay price and
    [(lay - back) / back >= MIN_ODDS_DIFFERENCE] (0.05); a pair whose
    decimal prices break either condition yields no record; and every
    record that a full pass returns satisfies both conditions. *)
Theorem emitted_opportunities_pass_price_gate
    (ev : EventInfo) (team : string) (now : Z) (best_back best_lay : Entry)
    (st : State) :
  (forall opp,
     opportunity_of_pair ev team now best_back best_lay = Some (Some opp) ->
     to_decimal (e_price best_back) = Some (q_price (back opp))
     /\ to_decimal (e_price best_lay) = Some (q_price (lay opp))
     /\ q_price (back opp) < q_price (lay opp)
     /\ MIN_ODDS_DIFFERENCE
        <= (q_price (lay opp) - q_price (back opp)) / q_price (back opp))
  /\ (forall b l,
        to_decimal (e_price best_back) = Some b ->
        to_decimal (e_price best_lay) = Some l ->
        ~ (b < l /\ MIN_ODDS_DIFFERENCE <= (l - b) / b) ->
        forall opp,
          opportunity_of_pair ev team now best_back best_lay
          <> Some (Some opp))
  /\ (forall res st',
        analyze_back_lay_opportunities now st = Some (res, st') ->
        forall l, In l res ->
          exists o,
            opp_store st' !! l = Some o
            /\ q_price (back o) < q_price (lay o)
            /\ MIN_ODDS_DIFFERENCE
               <= (q_price (lay o) - q_price (back o)) / q_price (back o))
  /\ MIN_ODDS_DIFFERENCE == 5 # 100.
Proof.
  split; [|split; [|split; [|reflexivity]]].
  - intros opp H. apply opportunity_of_pair_inv in H.
    destruct H as (Hb & Hl & _ & Hlt & _ & Hmin). auto.
  - intros b l Hb Hl Hn opp H. apply opportunity_of_pair_inv in H.
    destruct H as (Hb' & Hl' & _ & Hlt & _ & Hmin).
    rewrite Hb in Hb'. rewrite Hl in Hl'.
    injection Hb' as ->. injection Hl' as ->. apply Hn. auto.
  - intros res st' H l Hl.
    apply analyze_back_lay_opportunities_emitted in H. destruct H as [_ H].
    destruct (H l Hl) as (o & Ho & _ & Hlt & _ & Hmin).
    exists o. auto.
Qed.

Lemma emitted_opportunities_pass_price_gate_witness :
  (exists opp,
     opportunity_of_pair sample_event "A" 7 sample_back sample_lay
     = Some (Some opp)
     /\ q_price (back opp) < q_price (lay opp)
     /\ MIN_ODDS_DIFFERENCE
        <= (q_price (lay opp) - q_price (back opp)) / q_price (back opp))
  /\ ~ (2.0 < 2.05 /\ MIN_ODDS_DIFFERENCE <= (2.05 - 2.0) / 2.0)
  /\ forall opp,
       opportunity_of_pair sample_event "A" 7 sample_even_back sample_close_lay
       <> Some (Some opp).
Proof.
  assert (E : exists opp,
             opportunity_of_pair sample_event "A" 7 sample_back sample_lay
             = Some (Some opp))
    by (vm_compute; eexists; reflexivity).
  assert (Hn : ~ (2.0 < 2.05 /\ MIN_ODDS_DIFFERENCE <= (2.05 - 2.0) / 2.0))
    by (intros [_ H]; apply H; reflexivity).
  split; [|split; [exact Hn|]].
  - destruct E as [opp E]. exists opp. split; [exact E|].
    destruct (proj1 (emitted_opportunities_pass_price_gate
                       sample_event "A" 7 sample_back sample_lay (init [] []))
                    opp E) as (_ & _ & Hlt & Hmin).
    split; assumption.
  - exact (proj1 (proj2 (emitted_opportunities_pass_price_gate
                           sample_event "A" 7 sample_even_back
                           sample_close_lay (init [] [])))
                 2.0 2.05 eq_refl eq_refl Hn).
Defined.

(** C8.  The cycle analysis returns whenever its references are good, and
    every record that it returns carries a cycle info whose validity flag
    is true, for a price that the classifier accepts under the active
    profile; the [odds] of the cycle info are the back price of the record
    when its [type] is BACK and the lay price when its [type] is LAY. *)
Theorem analyze_cycle_opportunities_spec (opps : list loc) (st : State) :
  ((forall l, In l opps -> is_Some (opp_store st !! l)) ->
   is_Some (active_settings st) ->
   exists res st', analyze_cycle_opportunities opps st = Some (res, st'))
  /\ forall res st',
       analyze_cycle_opportunities opps st = Some (res, st') ->
       forall l, In l res ->
         exists o s,
           opp_store st' !! l = Some o
           /\ active_settings st = Some s
           /\ active_settings st' = Some s
           /\ carries_valid_cycle s o.
Proof.
  split; [apply analyze_cycle_opportunities_total|].
  intros res st' H l Hl.
  destruct (analyze_cycle_opportunities_settings _ _ _ _ _ H Hl) as [s Hs].
  destruct (analyze_cycle_opportunities_phase2 s _ _ _ _ Hs H) as [He Ha].
  destruct (Ha l Hl) as (_ & o & Ho & Hc & _).
  exists o, s. rewrite (extends_active _ _ He). auto.
Qed.

Lemma analyze_cycle_opportunities_spec_witness :
  exists res st' o s,
    analyze_cycle_opportunities [0%nat] sample_state = Some (res, st')
    /\ In 1%nat res
    /\ opp_store st' !! 1%nat = Some o
    /\ active_settings sample_state = Some s
    /\ carries_valid_cycle s o.
Proof.
  assert (E : exists res st',
             analyze_cycle_opportunities [0%nat] sample_state
             = Some (res, st') /\ In 1%nat res).
  { vm_compute. eexists _, _. split; [reflexivity|left; reflexivity]. }
  destruct E as (res & st' & E & Hin).
  destruct (proj2 (analyze_cycle_opportunities_spec [0%nat] sample_state)
                  res st' E 1%nat Hin) as (o & s & Ho & Hs & _ & Hc).
  exists res, st', o, s. auto.
Defined.

(** C9.  The cycle analysis leaves every object that was in the store as
    it was and returns references to new objects only; a full pass returns,
    stores the list that it returns, no record of that list has a
    [cycle_info] key, and [get_cycle_opportunities] then returns the empty
    list. *)
Theorem stored_opportunities_without_cycle_info (now : Z) (st : State) :
  (forall opps res st',
     analyze_cycle_opportunities opps st = Some (res, st') ->
     (forall (l : loc) o,
        opp_store st !! l = Some o -> opp_store st' !! l = Some o)
     /\ (forall l, In l res -> (length (opp_store st) <= l)%nat))
  /\ (exists res st', analyze_back_lay_opportunities now st = Some (res, st'))
  /\ forall res st',
       analyze_back_lay_opportunities now st = Some (res, st') ->
       opportunities st' = res
       /\ (forall l, In l (opportunities st') ->
             exists o, opp_store st' !! l = Some o /\ cycle_info o = None)
       /\ get_cycle_opportunities st' = Some ([], st').
Proof.
  split; [|split].
  - intros opps res st' H.
    apply analyze_cycle_opportunities_extends in H.
    destruct H as [(_ & _ & _ & H) Hfresh]. split; assumption.
  - eexists _, _. apply analyze_back_lay_opportunities_nothing.
  - intros res st' H.
    apply analyze_back_lay_opportunities_emitted in H. destruct H as [Hres H].
    assert (Hn : all_refs (fun o => cycle_info o = None) (opportunities st') st').
    { rewrite Hres. intros l Hl. destruct (H l Hl) as (o & Ho & Hc & _).
      exists o. auto. }
    split; [exact Hres|]. split; [exact Hn|].
    apply get_cycle_opportunities_none. exact Hn.
Qed.

Lemma stored_opportunities_without_cycle_info_witness :
  (exists res st',
     analyze_cycle_opportunities [0%nat] sample_state = Some (res, st')
     /\ opp_store sample_state !! 0%nat = Some sample_opportunity
     /\ opp_store st' !! 0%nat = Some sample_opportunity
     /\ In 1%nat res)
  /\ exists res st',
       analyze_back_lay_opportunities 7 sample_feed_state = Some (res, st')
       /\ opportunities st' = res
       /\ get_cycle_opportunities st' = Some ([], st').
Proof.
  split.
  - assert (E : exists res st',
               analyze_cycle_opportunities [0%nat] sample_state
               = Some (res, st') /\ In 1%nat res).
    { vm_compute. eexists _, _. split; [reflexivity|left; reflexivity]. }
    destruct E as (res & st' & E & Hin).
    assert (H0 : opp_store sample_state !! 0%nat = Some sample_opportunity)
      by reflexivity.
    exists res, st'. split; [exact E|]. split; [exact H0|].
    split; [|exact Hin].
    exact (proj1 (proj1 (stored_opportunities_without_cycle_info
                           7 sample_state) [0%nat] res st' E)
                 0%nat sample_opportunity H0).
  - destruct (proj1 (proj2 (stored_opportunities_without_cycle_info
                              7 sample_feed_state))) as (res & st' & E).
    destruct (proj2 (proj2 (stored_opportunities_without_cycle_info
                              7 sample_feed_state)) res st' E)
      as (Hres & _ & Hget).
    exists res, st'. auto.
Defined.

End PassProperties.

(** * Further properties of the pure functions *)

Section ArbitrageMore.
Import Py Config Utils Steps.
Local Open Scope Q_scope.

Lemma decimal_to_probability_nonneg (o : Q) : 0 <= decimal_to_probability o.
Proof.
  unfold decimal_to_probability. destruct (Qlt_bool 0 o) eqn:E.
  - apply Qlt_bool_iff in E. apply Qlt_le_weak.
    unfold Qdiv. rewrite Qmult_1_l. apply Qinv_lt_0_compat. exact E.
  - discriminate.
Qed.

(** X5.  A reported arbitrage always has a margin above 2 and at most 100
    (in percent); when no arbitrage is reported the margin is 0. *)
Theorem identify_arbitrage_margin_bounds (back lay m : Q) :
  (identify_arbitrage back lay = (true, m) -> 2 < m /\ m <= 100)
  /\ (identify_arbitrage back lay = (false, m) -> m == 0).
Proof.
  unfold identify_arbitrage.
  pose proof (decimal_to_probability_nonneg back) as Hb.
  pose proof (decimal_to_probability_nonneg lay) as Hl.
  destruct (Qlt_bool (decimal_to_probability back
                      + decimal_to_probability lay) 0.98) eqn:E.
  - apply Qlt_bool_iff in E. split; [|discriminate].
    intro H. injection H as <-. split; lra.
  - split; [discriminate|]. intro H. injection H as <-. reflexivity.
Qed.

Lemma identify_arbitrage_margin_bounds_witness :
  (exists m, identify_arbitrage 2.20 2.50 = (true, m) /\ 2 < m /\ m <= 100)
  /\ exists m, identify_arbitrage 1.90 2.10 = (false, m) /\ m == 0.
Proof.
  split.
  - eexists. split; [reflexivity|].
    exact (proj1 (identify_arbitrage_margin_bounds 2.20 2.50 _) eq_refl).
  - eexists. split; [reflexivity|].
    exact (proj2 (identify_arbitrage_margin_bounds 1.90 2.10 _) eq_refl).
Defined.

(** X6.  The detector looks at the two prices only through the sum of
    their implied probabilities, so it cannot tell the back price from the
    lay price: swapping them gives the same answer and the same margin. *)
Theorem identify_arbitrage_symmetric (a b : Q) :
  fst (identify_arbitrage a b) = fst (identify_arbitrage b a)
  /\ snd (identify_arbitrage a b) == snd (identify_arbitrage b a).
Proof.
  unfold identify_arbitrage.
  assert (E : decimal_to_probability a + decimal_to_probability b
              == decimal_to_probability b + decimal_to_probability a)
    by apply Qplus_comm.
  assert (Eb : Qlt_bool (decimal_to_probability a + decimal_to_probability b)
                 0.98
               = Qlt_bool (decimal_to_probability b
                           + decimal_to_probability a) 0.98).
  { unfold Qlt_bool. f_equal. apply Qleb_comp; [reflexivity|exact E]. }
  rewrite Eb.
  destruct (Qlt_bool (decimal_to_probability b + decimal_to_probability a)
              0.98); simpl; split; try reflexivity.
  rewrite E. reflexivity.
Qed.

End ArbitrageMore.

Section RecommendationMore.
Import Py Config Utils Records Steps.
Local Open Scope Q_scope.



(** X9.  A recommendation has one of four actions, and its money fields
    fit the action: for BACK the maximal liability is the stake, for LAY the
    potential profit is the stake, BACK_AND_LAY has stake 100 and confidence
    0.95, and MONITOR has stake, profit, liability and confidence 0. *)
Theorem recommendation_fields_fit_action
    (back_price lay_price back_prob : Q) (is_arbitrage : bool)
    (r : Recommendation) :
  _generate_recommendation back_price lay_price back_prob is_arbitrage
  = Some r ->
  (action r = Some "BACK"%string
   /\ max_liability r = stake_recommendation r)
  \/ (action r = Some "LAY"%string
      /\ potential_profit r = stake_recommendation r)
  \/ (action r = Some "BACK_AND_LAY"%string
      /\ stake_recommendation r = 100 /\ confidence r = 0.95)
  \/ (action r = Some "MONITOR"%string
      /\ stake_recommendation r = 0 /\ potential_profit r = 0
      /\ max_liability r = 0 /\ confidence r = 0).
Proof.
  unfold _generate_recommendation.
  destruct (Qle_bool back_price MAX_BACK_ODDS).
  { intro H. injection H as <-. left. split; reflexivity. }
  destruct (Qle_bool MIN_LAY_ODDS lay_price).
  { intro H. injection H as <-. right. left. split; reflexivity. }
  destruct is_arbitrage.
  { destruct (div back_price lay_price); [simpl|discriminate].
    intro H. injection H as <-. right. right. left.
    split; [reflexivity|split; reflexivity]. }
  destruct (Qle_bool MIN_PROBABILITY back_prob
            && Qlt_bool back_price lay_price).
  { intro H. injection H as <-. left. split; reflexivity. }
  destruct (Qle_bool MIN_PROBABILITY (decimal_to_probability lay_price)).
  { intro H. injection H as <-. right. left. split; reflexivity. }
  intro H. injection H as <-. right. right. right.
  repeat split; reflexivity.
Qed.

Lemma recommendation_fields_fit_action_witness :
  exists r,
    _generate_recommendation 1.5 1.6 (1 / 1.5) false = Some r
    /\ action r = Some "BACK"%string
    /\ max_liability r = stake_recommendation r.
Proof.
  assert (E : exists r,
             _generate_recommendation 1.5 1.6 (1 / 1.5) false = Some r
             /\ action r = Some "BACK"%string)
    by (eexists; split; reflexivity).
  destruct E as (r & E & Ha). exists r. split; [exact E|].
  split; [exact Ha|].
  destruct (recommendation_fields_fit_action 1.5 1.6 (1 / 1.5) false r E)
    as [[_ H]|[[H _]|[[H _]|[H _]]]];
    [exact H| | | ]; rewrite Ha in H; discriminate H.
Defined.

End RecommendationMore.

Section ClassifierMore.
Import Py Config Utils.
Local Open Scope Q_scope.

Lemma back_invalid_at_threshold (o g r k : Q) (ci : CycleInfo) :
  o <= MAX_BACK_ODDS -> k < 50 # 3 ->
  calculate_cycle_opportunity o true g r k = Some ci ->
  is_valid ci = false.
Proof.
  intros Ho Hk. unfold calculate_cycle_opportunity. simpl.
  intro H. injection H as <-. simpl.
  destruct (Qlt_bool 0 (o - 1)) eqn:E; simpl; [|apply andb_false_r].
  apply Qlt_bool_iff in E. unfold MAX_BACK_ODDS in Ho.
  assert (Hr : Qle_bool (1.0 / (o - 1)) k = false).
  { apply Qle_bool_false_iff.
    apply Qlt_shift_div_l; [exact E|].
    assert (Hm : k * (o - 1) < (50 # 3) * (o - 1))
      by (apply Qmult_lt_r; assumption).
    lra. }
  rewrite Hr. apply andb_false_r.
Qed.

Lemma lay_invalid_at_threshold (o g r k : Q) (ci : CycleInfo) :
  MIN_LAY_ODDS <= o -> k < 29 ->
  calculate_cycle_opportunity o false g r k = Some ci ->
  is_valid ci = false.
Proof.
  intros Ho Hk. unfold calculate_cycle_opportunity. simpl.
  unfold MIN_LAY_ODDS in Ho.
  assert (Hnz : ~ o == 0) by lra.
  rewrite !(div_Some _ _ Hnz). simpl.
  intro H. injection H as <-. simpl.
  assert (Hg : 0 < 1 / o).
  { apply Qlt_shift_div_l; lra. }
  pose proof Hg as Hb. apply Qlt_bool_iff in Hb. rewrite Hb. simpl.
  assert (Hr : Qle_bool ((o - 1) / o / (1 / o)) k = false).
  { apply Qle_bool_false_iff.
    assert (E : (o - 1) / o / (1 / o) == o - 1) by (field; lra).
    rewrite E. lra. }
  rewrite Hr. apply andb_false_r.
Qed.

End ClassifierMore.

Section PassesMore.
Import Py Config Utils Feed Records Steps Analyzer.
Local Open Scope Q_scope.

Lemma cycle_side_rejects opp p (is_back : bool) acc st s :
  active_settings st = Some s ->
  Config.risk_reward_ratio s < 50 # 3 ->
  (if is_back then p <= MAX_BACK_ODDS else MIN_LAY_ODDS <= p) ->
  cycle_side opp p is_back acc st = Some (acc, st).
Proof.
  intros Hs Hk Hp. unfold cycle_side, bind, get_settings, lift. rewrite Hs.
  destruct (calculate_cycle_opportunity p is_back (green_target s)
              (max_red s) (Config.risk_reward_ratio s)) as [ci|] eqn:Hci.
  - assert (Hv : is_valid ci = false).
    { destruct is_back.
      - exact (back_invalid_at_threshold _ _ _ _ _ Hp Hk Hci).
      - refine (lay_invalid_at_threshold _ _ _ _ _ Hp _ Hci). lra. }
    rewrite Hv. reflexivity.
  - exfalso. destruct is_back.
    + unfold calculate_cycle_opportunity in Hci. simpl in Hci. discriminate.
    + unfold MIN_LAY_ODDS in Hp.
      assert (Hnz : ~ p == 0) by lra.
      unfold calculate_cycle_opportunity in Hci.
      rewrite !(div_Some _ _ Hnz) in Hci. simpl in Hci. discriminate.
Qed.

Lemma cycle_analysis_rejects_all opps st s :
  active_settings st = Some s ->
  Config.risk_reward_ratio s < 50 # 3 ->
  (forall l, In l opps -> is_Some (opp_store st !! l)) ->
  analyze_cycle_opportunities opps st = Some ([], st).
Proof.
  intros Hs Hk. unfold analyze_cycle_opportunities.
  induction opps as [|opp opps IH]; intro Hrefs; [reflexivity|].
  simpl. destruct (Hrefs opp (or_introl eq_refl)) as [o Ho].
  assert (Hb : cycle_body opp [] st = Some ([], st)).
  { unfold cycle_body, bind at 1, deref, lift. rewrite Ho.
    assert (H1 : (if Qle_bool (q_price (back o)) MAX_BACK_ODDS
                  then cycle_side opp (q_price (back o)) true []
                  else ret []) st = Some ([], st)).
    { destruct (Qle_bool (q_price (back o)) MAX_BACK_ODDS) eqn:E;
        [|reflexivity].
      apply Qle_bool_iff in E.
      exact (cycle_side_rejects opp _ true [] st s Hs Hk E). }
    unfold bind at 1. rewrite H1. unfold bind at 1. rewrite Ho.
    destruct (Qle_bool MIN_LAY_ODDS (q_price (lay o))) eqn:E; [|reflexivity].
    apply Qle_bool_iff in E.
    exact (cycle_side_rejects opp _ false [] st s Hs Hk E). }
  unfold bind at 1. rewrite Hb. apply IH.
  intros l Hl. apply Hrefs. right. exact Hl.
Qed.

(** X16.  With the configuration as shipped the cycle method never selects
    anything: after [__init__], whatever name is passed to
    [set_cycle_profile] (a known profile, or an unknown one that leaves the
    default in place), the cycle analysis of the stored records returns the
    empty list. *)
Theorem shipped_profiles_select_nothing
    (data : list (string * list Event)) (loaded : list Opportunity)
    (p : string) :
  let st := snd (set_cycle_profile p (init data loaded)) in
  analyze_cycle_opportunities (opportunities st) st = Some ([], st).
Proof.
  intro st.
  pose proof (wf_set_cycle_profile p _ (wf_init data loaded))
    as (_ & _ & Hrefs).
  fold st in Hrefs.
  assert (Hs : exists s, active_settings st = Some s
                         /\ Config.risk_reward_ratio s == 3).
  { subst st. unfold set_cycle_profile.
    destruct (CYCLE_SETTINGS (init data loaded) !! p) as [l|] eqn:E; simpl.
    - unfold active_settings. simpl. unfold init in E. simpl in E.
      repeat (apply lookup_insert_Some in E;
              destruct E as [[_ <-]|[_ E]];
              [eexists; split; reflexivity|]).
      rewrite lookup_empty in E. discriminate.
    - eexists. split; reflexivity. }
  destruct Hs as (s & Hs & Hk).
  apply (cycle_analysis_rejects_all _ st s Hs); [|exact Hrefs].
  rewrite Hk. reflexivity.
Qed.

(** X17.  A call of [_analyze_market] never finds a pair: the quotes it
    collects all carry the market type it was called with, so the back side
    or the lay side of every outcome is empty.  It returns the empty list
    whatever the bookmakers are, and so a full pass returns the empty list,
    stores the empty list in place of what was stored before, and leaves
    every object alone. *)
Theorem pass_finds_no_opportunity
    (ev : EventInfo) (now : Z) (bookmakers : list Bookmaker) (mt : string)
    (st : State) :
  (forall team entries,
     In (team, entries) (collect_odds bookmakers mt) ->
     (forall e, In e entries -> market_type e = mt)
     /\ best_pair entries = None)
  /\ _analyze_market ev now bookmakers mt st = Some ([], st)
  /\ exists st',
       analyze_back_lay_opportunities now st = Some ([], st')
       /\ opportunities st' = []
       /\ opp_store st' = opp_store st
       /\ settings_store st' = settings_store st
       /\ CYCLE_SETTINGS st' = CYCLE_SETTINGS st
       /\ cycle_profile st' = cycle_profile st
       /\ cycle_settings st' = cycle_settings st.
Proof.
  split; [|split].
  - intros team entries Hin.
    pose proof (collect_odds_of_type bookmakers mt _ Hin) as Ht.
    split; [exact Ht|]. exact (best_pair_of_type mt entries Ht).
  - apply analyze_market_nothing.
  - exists (with_opportunities [] st).
    split; [apply analyze_back_lay_opportunities_nothing|].
    repeat split; reflexivity.
Qed.

Lemma pass_finds_no_opportunity_witness :
  exists st',
    analyze_back_lay_opportunities 7
      (init (odds_data sample_feed_state) [sample_opportunity])
    = Some ([], st')
    /\ opportunities st' = []
    /\ opp_store st' = [sample_opportunity].
Proof.
  destruct (proj2 (proj2 (pass_finds_no_opportunity sample_event 7 [] "h2h"
              (init (odds_data sample_feed_state) [sample_opportunity]))))
    as (st' & H & Ho & Hs & _).
  exists st'. split; [exact H|]. split; [exact Ho|]. exact Hs.
Defined.

End PassesMore.

Section PairStep.
Import Py Config Utils Feed Records Steps.
Local Open Scope Q_scope.

(** X19.  The fields of a record built by the pair step agree with each
    other: the percentage difference is [100 * (lay - back) / back] and at
    least 5; the two probabilities are the implied probabilities of the two
    prices; the arbitrage flag is the detector's answer, with a margin above
    2 when set and 0 when not; the recommendation is the generator's answer
    for these prices; and the record is flagged as a potential cycle exactly
    when the recommendation is one of the two cycle-method ones. *)
Theorem emitted_record_consistent
    (ev : EventInfo) (tm : string) (now : Z) (best_back best_lay : Entry)
    (opp : Opportunity) :
  opportunity_of_pair ev tm now best_back best_lay = Some (Some opp) ->
  difference_percent opp
  == 100 * (q_price (lay opp) - q_price (back opp)) / q_price (back opp)
  /\ 5 <= difference_percent opp
  /\ q_probability (back opp) = decimal_to_probability (q_price (back opp))
  /\ q_probability (lay opp) = decimal_to_probability (q_price (lay opp))
  /\ is_arbitrage opp
     = fst (identify_arbitrage (q_price (back opp)) (q_price (lay opp)))
  /\ (is_arbitrage opp = true -> 2 < arbitrage_margin opp)
  /\ (is_arbitrage opp = false -> arbitrage_margin opp = 0)
  /\ _generate_recommendation (q_price (back opp)) (q_price (lay opp))
       (q_probability (back opp)) (is_arbitrage opp)
     = Some (recommendation opp)
  /\ (potential_cycle opp = true
      <-> strategy (recommendation opp)
          = Some "Método dos Ciclos (Back)"%string
          \/ strategy (recommendation opp)
             = Some "Método dos Ciclos (Lay)"%string)
  /\ q_bookmaker (back opp) = bookmaker best_back
  /\ q_bookmaker (lay opp) = bookmaker best_lay
  /\ team opp = tm
  /\ timestamp opp = now.
Proof.
  unfold opportunity_of_pair.
  destruct (to_decimal (e_price best_back)) as [b|]; [simpl|discriminate].
  destruct (to_decimal (e_price best_lay)) as [l|]; [simpl|discriminate].
  destruct (Qlt_bool b l) eqn:Hlt; [|discriminate].
  destruct (div (l - b) b) as [d|] eqn:Hd; [simpl|discriminate].
  destruct (Qle_bool MIN_ODDS_DIFFERENCE d) eqn:Hmin; [|discriminate].
  destruct (identify_arbitrage b l) as [arb margin] eqn:Harb.
  destruct (_generate_recommendation b l (decimal_to_probability b) arb)
    as [r|] eqn:Hr; [simpl|discriminate].
  intro H. injection H as <-. simpl.
  apply div_inv in Hd. destruct Hd as [Hb ->].
  apply Qle_bool_iff in Hmin. unfold MIN_ODDS_DIFFERENCE in Hmin.
  split; [field; exact Hb|]. split; [lra|].
  split; [reflexivity|]. split; [reflexivity|].
  split; [rewrite Harb; reflexivity|].
  split; [|split; [|split; [exact Hr|]]].
  - intro Ha. rewrite Ha in *. clear Ha.
    unfold identify_arbitrage in Harb.
    destruct (Qlt_bool (decimal_to_probability b + decimal_to_probability l)
                0.98) eqn:E; [|discriminate].
    apply Qlt_bool_iff in E. injection Harb as <-. lra.
  - intro Ha. rewrite Ha. reflexivity.
  - split; [|split; [reflexivity|split; [reflexivity|split; reflexivity]]].
    unfold _generate_recommendation in Hr.
    destruct (Qle_bool b MAX_BACK_ODDS).
    { injection Hr as <-. simpl. split; [left; reflexivity|reflexivity]. }
    destruct (Qle_bool MIN_LAY_ODDS l).
    { injection Hr as <-. simpl. split; [right; reflexivity|reflexivity]. }
    simpl. split; [discriminate|]. intro Hs. exfalso.
    destruct arb.
    { destruct (div b l); [simpl in Hr|discriminate].
      injection Hr as <-. destruct Hs as [Hs|Hs]; discriminate Hs. }
    destruct (Qle_bool MIN_PROBABILITY (decimal_to_probability b)
              && Qlt_bool b l).
    { injection Hr as <-. destruct Hs as [Hs|Hs]; discriminate Hs. }
    destruct (Qle_bool MIN_PROBABILITY (decimal_to_probability l));
      injection Hr as <-; destruct Hs as [Hs|Hs]; discriminate Hs.
Qed.

Lemma emitted_record_consistent_witness :
  exists opp,
    opportunity_of_pair sample_event "A" 7 sample_back sample_lay
    = Some (Some opp)
    /\ 5 <= difference_percent opp
    /\ potential_cycle opp = true
    /\ strategy (recommendation opp)
       = Some "Método dos Ciclos (Back)"%string.
Proof.
  assert (E : exists opp,
             opportunity_of_pair sample_event "A" 7 sample_back sample_lay
             = Some (Some opp)
             /\ potential_cycle opp = true
             /\ strategy (recommendation opp)
                = Some "Método dos Ciclos (Back)"%string).
  { vm_compute. eexists. split; [reflexivity|]. split; reflexivity. }
  destruct E as (opp & E & Hp & Hs). exists opp. split; [exact E|].
  split; [|split; [exact Hp|exact Hs]].
  exact (proj1 (proj2 (emitted_record_consistent
                         sample_event "A" 7 sample_back sample_lay opp E))).
Defined.

End PairStep.

Section Grouping.
Import Py Config Utils Feed Records Steps.
Local Open Scope Q_scope.

Lemma append_odds_keys team e all_odds :
  map fst (append_odds team e all_odds)
  = if existsb (String.eqb team) (map fst all_odds)
    then map fst all_odds
    else map fst all_odds ++ [team].
Proof.
  induction all_odds as [|[t es] rest IH]; simpl; [reflexivity|].
  rewrite (String.eqb_sym team t).
  destruct (String.eqb t team); simpl; [reflexivity|].
  rewrite IH. destruct (existsb (String.eqb team) (map fst rest)); reflexivity.
Qed.

Lemma existsb_eqb_In team (keys : list string) :
  existsb (String.eqb team) keys = true <-> In team keys.
Proof.
  rewrite existsb_exists. split.
  - intros (k & Hk & E). apply String.eqb_eq in E. subst k. exact Hk.
  - intro H. exists team. split; [exact H|apply String.eqb_refl].
Qed.

Lemma append_odds_NoDup team e all_odds :
  List.NoDup (map fst all_odds) ->
  List.NoDup (map fst (append_odds team e all_odds)).
Proof.
  intro H. rewrite append_odds_keys.
  destruct (existsb (String.eqb team) (map fst all_odds)) eqn:E; [exact H|].
  apply NoDup_ListNoDup. apply NoDup_ListNoDup in H.
  apply NoDup_app. split; [exact H|]. split; [|apply NoDup_singleton].
  intros k Hk Hk'. apply list_elem_of_singleton in Hk'. subst k.
  apply list_elem_of_In, existsb_eqb_In in Hk. congruence.
Qed.

Lemma append_odds_In team e all_odds item :
  In item (append_odds team e all_odds) ->
  snd item <> []
  \/ In item all_odds.
Proof.
  induction all_odds as [|[t es] rest IH]; simpl.
  - intros [<-|[]]. left. discriminate.
  - destruct (String.eqb t team).
    + intros [<-|H]; [left; simpl; destruct es; discriminate|].
      right. right. exact H.
    + intros [<-|H]; [right; left; reflexivity|].
      destruct (IH H) as [H'|H']; [left; exact H'|right; right; exact H'].
Qed.

Lemma append_odds_size team e all_odds :
  length (concat (map snd (append_odds team e all_odds)))
  = S (length (concat (map snd all_odds))).
Proof.
  induction all_odds as [|[t es] rest IH]; simpl; [reflexivity|].
  destruct (String.eqb t team); simpl.
  - rewrite !length_app. simpl. lia.
  - rewrite !length_app, IH. lia.
Qed.

Lemma get_In_NoDup team es (all_odds : list (string * list Entry)) :
  List.NoDup (map fst all_odds) -> In (team, es) all_odds ->
  get team all_odds = Some es.
Proof.
  induction all_odds as [|[t es'] rest IH]; simpl; [intros _ []|].
  intros Hnd Hin. inversion Hnd as [|? ? Hnotin Hnd']. subst.
  destruct Hin as [Hin|Hin].
  - injection Hin as -> ->. rewrite String.eqb_refl. reflexivity.
  - destruct (String.eqb t team) eqn:E.
    + apply String.eqb_eq in E. subst t. exfalso. apply Hnotin.
      apply in_map_iff. exists (team, es). split; [reflexivity|exact Hin].
    + exact (IH Hnd' Hin).
Qed.

Lemma group_invariants quotes all_odds :
  List.NoDup (map fst all_odds) ->
  (forall item, In item all_odds -> snd item <> []) ->
  List.NoDup (map fst (group quotes all_odds))
  /\ (forall item, In item (group quotes all_odds) -> snd item <> [])
  /\ length (concat (map snd (group quotes all_odds)))
     = (length quotes + length (concat (map snd all_odds)))%nat.
Proof.
  revert all_odds. unfold group.
  induction quotes as [|[t e] qs IH]; intros all_odds Hnd Hne; simpl.
  - repeat split; assumption.
  - destruct (IH (append_odds t e all_odds)) as (H1 & H2 & H3).
    + apply append_odds_NoDup. exact Hnd.
    + intros item Hin. destruct (append_odds_In _ _ _ _ Hin) as [H|H];
        [exact H|exact (Hne item H)].
    + split; [exact H1|]. split; [exact H2|].
      rewrite H3, append_odds_size. lia.
Qed.

(** X20.  The first loop of [_analyze_market] loses and invents nothing:
    the outcome names of its groups are distinct, no group is empty, each
    group is exactly the list of the quotes of that name in feed order, and
    the groups together hold as many entries as the feed has quotes of the
    market type. *)
Theorem collect_odds_partitions_quotes
    (bookmakers : list Bookmaker) (mt : string) :
  List.NoDup (map fst (collect_odds bookmakers mt))
  /\ (forall team entries,
        In (team, entries) (collect_odds bookmakers mt) ->
        entries <> []
        /\ entries = quotes_of team (quotes_in_order bookmakers mt))
  /\ length (concat (map snd (collect_odds bookmakers mt)))
     = length (quotes_in_order bookmakers mt).
Proof.
  rewrite collect_odds_group.
  destruct (group_invariants (quotes_in_order bookmakers mt) [])
    as (H1 & H2 & H3); [constructor|intros item []|].
  split; [exact H1|]. split.
  - intros team entries Hin.
    pose proof (H2 _ Hin) as Hne. simpl in Hne. split; [exact Hne|].
    pose proof (get_In_NoDup _ _ _ H1 Hin) as Hg.
    rewrite get_group in Hg. simpl in Hg.
    destruct (quotes_of team (quotes_in_order bookmakers mt));
      [discriminate|].
    injection Hg as <-. reflexivity.
  - rewrite H3. simpl. lia.
Qed.

Lemma collect_odds_partitions_quotes_witness :
  exists entries,
    In ("A"%string, entries) (collect_odds sample_bookmakers "h2h")
    /\ entries <> []
    /\ entries = quotes_of "A" (quotes_in_order sample_bookmakers "h2h")
    /\ length entries = 2%nat.
Proof.
  assert (E : exists entries,
             In ("A"%string, entries) (collect_odds sample_bookmakers "h2h")
             /\ length entries = 2%nat).
  { eexists. split; [left; reflexivity|reflexivity]. }
  destruct E as (entries & Hin & Hlen). exists entries.
  destruct (proj1 (proj2 (collect_odds_partitions_quotes
                            sample_bookmakers "h2h")) "A"%string entries Hin)
    as [Hne Heq].
  split; [exact Hin|]. split; [exact Hne|]. split; [exact Heq|exact Hlen].
Defined.

End Grouping.

Section SetterSequences.
Import Py Config Utils Feed Records Analyzer.
Local Open Scope Q_scope.

Lemma profile_settings_set_cycle_profile p q st :
  profile_settings (snd (set_cycle_profile p st)) q = profile_settings st q.
Proof.
  unfold set_cycle_profile.
  destruct (CYCLE_SETTINGS st !! p); reflexivity.
Qed.

Lemma profile_settings_set_custom g r k q st :
  (forall (p : string) (l : loc),
     CYCLE_SETTINGS st !! p = Some l -> is_Some (settings_store st !! l)) ->
  profile_settings (set_custom_cycle_settings g r k st) q
  = if String.eqb q "custom" then Some (mkSettings g r k)
    else profile_settings st q.
Proof.
  intro Hrefs. unfold profile_settings. simpl.
  destruct (String.eqb q "custom") eqn:E.
  - apply String.eqb_eq in E. subst q. rewrite lookup_insert_eq.
    rewrite lookup_app_r by lia. rewrite Nat.sub_diag. reflexivity.
  - apply String.eqb_neq in E. rewrite lookup_insert_ne by congruence.
    destruct (CYCLE_SETTINGS st !! q) as [l|] eqn:El; [|reflexivity].
    destruct (Hrefs q l El) as [s Hs]. rewrite Hs.
    apply lookup_app_l_Some. exact Hs.
Qed.

Lemma profiles_consistent_init data loaded :
  profiles_consistent (init data loaded).
Proof.
  split; [reflexivity|]. split; [apply wf_init|].
  split; [|repeat split; reflexivity].
  unfold init. simpl. rewrite !dom_insert_L, dom_empty_L. set_solver.
Qed.

Lemma profiles_consistent_call c st :
  profiles_consistent st -> profiles_consistent (call_setter c st).
Proof.
  intros (Hact & Hrefs & Hdom & Hd & Hc & Ha). destruct c as [p|g r k]; simpl.
  - unfold profiles_consistent.
    rewrite !profile_settings_set_cycle_profile.
    unfold set_cycle_profile.
    destruct (CYCLE_SETTINGS st !! p) as [l|] eqn:E; simpl;
      repeat split; assumption.
  - unfold profiles_consistent.
    rewrite !(profile_settings_set_custom _ _ _ _ _ Hrefs). simpl.
    split; [|split; [|split; [|repeat split; assumption]]].
    + destruct (String.eqb (cycle_profile st) "custom") eqn:E.
      * apply String.eqb_eq in E. rewrite E. apply lookup_insert_eq.
      * apply String.eqb_neq in E.
        rewrite lookup_insert_ne by congruence. exact Hact.
    + intros p l H. apply lookup_insert_Some in H.
      destruct H as [[_ <-]|[_ H]].
      * rewrite lookup_app_r by lia. rewrite Nat.sub_diag.
        eexists. reflexivity.
      * destruct (Hrefs p l H) as [s Hs].
        rewrite (lookup_app_l_Some _ _ _ _ Hs). eexists. reflexivity.
    + rewrite dom_insert_L, Hdom. set_solver.
Qed.

Lemma profiles_consistent_calls cs st :
  profiles_consistent st -> profiles_consistent (call_setters cs st).
Proof.
  revert st. unfold call_setters.
  induction cs as [|c cs IH]; intros st H; simpl; [exact H|].
  apply IH, profiles_consistent_call, H.
Qed.

(** X21.  Whatever setters are called after [__init__], in whatever order
    and with whatever arguments, [self.cycle_settings] is the dict that
    [CYCLE_SETTINGS] holds under the active profile name: the settings that
    the next classification reads are those of the active profile. *)
Theorem active_settings_follow_profile
    (cs : list setter_call) (data : list (string * list Event))
    (loaded : list Opportunity) :
  let st := call_setters cs (init data loaded) in
  CYCLE_SETTINGS st !! cycle_profile st = Some (cycle_settings st)
  /\ active_settings st = profile_settings st (cycle_profile st)
  /\ is_Some (active_settings st).
Proof.
  intro st.
  destruct (profiles_consistent_calls cs _ (profiles_consistent_init data loaded))
    as (Hact & Hrefs & _).
  fold st in Hact, Hrefs.
  split; [exact Hact|]. unfold profile_settings. rewrite Hact.
  split; [reflexivity|]. exact (Hrefs _ _ Hact).
Qed.

(** X22.  No sequence of setter calls alters the table of profiles beyond
    its custom entry: the names stay default, conservative, aggressive and
    custom, the first three keep their configured values, and custom holds
    the parameters of the last [set_custom_cycle_settings] call (its
    configured value when there was none). *)
Theorem builtin_profiles_never_change
    (cs : list setter_call) (data : list (string * list Event))
    (loaded : list Opportunity) :
  let st := call_setters cs (init data loaded) in
  dom (CYCLE_SETTINGS st)
  = ({["default"; "conservative"; "aggressive"; "custom"]} : gset string)
  /\ profile_settings st "default" = Some default_settings
  /\ profile_settings st "conservative" = Some conservative_settings
  /\ profile_settings st "aggressive" = Some aggressive_settings
  /\ profile_settings st "custom" = Some (last_custom cs custom_settings).
Proof.
  intro st.
  destruct (profiles_consistent_calls cs _ (profiles_consistent_init data loaded))
    as (_ & _ & Hdom & Hd & Hc & Ha).
  fold st in Hdom, Hd, Hc, Ha.
  split; [exact Hdom|]. split; [exact Hd|]. split; [exact Hc|].
  split; [exact Ha|].
  subst st. clear Hdom Hd Hc Ha.
  assert (H : forall st0 s,
            profiles_consistent st0 ->
            profile_settings st0 "custom" = Some s ->
            profile_settings (call_setters cs st0) "custom"
            = Some (last_custom cs s)).
  { unfold call_setters, last_custom.
    induction cs as [|c cs IH]; intros st0 s Hpc Hs; simpl; [exact Hs|].
    apply IH; [apply profiles_consistent_call; exact Hpc|].
    destruct c as [p|g r k]; simpl.
    - rewrite profile_settings_set_cycle_profile. exact Hs.
    - destruct Hpc as (_ & Hrefs & _).
      rewrite (profile_settings_set_custom _ _ _ _ _ Hrefs). reflexivity. }
  apply H; [apply profiles_consistent_init|reflexivity].
Qed.

(** X23.  Installing custom parameters and then activating the custom
    profile, as the agent does when it loads a custom configuration, always
    succeeds and makes exactly these parameters the active settings,
    whatever the state was; activating a profile twice is the same as
    activating it once. *)
Theorem custom_settings_then_profile (g r k : Q) (p : string) (st : State) :
  (exists st',
     set_cycle_profile "custom" (set_custom_cycle_settings g r k st)
     = (true, st')
     /\ cycle_profile st' = "custom"%string
     /\ active_settings st' = Some (mkSettings g r k)
     /\ opp_store st' = opp_store st
     /\ opportunities st' = opportunities st)
  /\ set_cycle_profile p (snd (set_cycle_profile p st))
     = (fst (set_cycle_profile p st), snd (set_cycle_profile p st)).
Proof.
  split.
  - unfold set_cycle_profile. simpl. rewrite lookup_insert_eq.
    eexists. split; [reflexivity|]. simpl.
    split; [reflexivity|]. split; [|split; reflexivity].
    unfold active_settings. simpl.
    rewrite lookup_app_r by lia. rewrite Nat.sub_diag. reflexivity.
  - unfold set_cycle_profile.
    destruct (CYCLE_SETTINGS st !! p) as [l|] eqn:E; simpl; rewrite E;
      reflexivity.
Qed.

End SetterSequences.

(** ** The queries on the stored opportunities *)

Section QueryProperties.
Import Py Config Utils Feed Records Steps Analyzer Queries.

(** A loop that appends the elements passing a test builds the filtered
    list. *)
Lemma for_each_filter {A : Type} (f : A -> list A -> M (list A))
    (p : A -> bool) st :
  forall l acc,
    (forall x acc', In x l ->
       f x acc' st = Some (if p x then acc' ++ [x] else acc', st)) ->
    for_each f l acc st = Some (acc ++ List.filter p l, st).
Proof.
  induction l as [|x l IH]; intros acc H; simpl.
  - rewrite app_nil_r. reflexivity.
  - unfold bind. rewrite (H x acc (or_introl eq_refl)).
    rewrite IH by (intros y a Hy; apply H; right; exact Hy).
    destruct (p x); [rewrite <- app_assoc|]; reflexivity.
Qed.

Lemma filter_sublist_mono {A : Type} (p q : A -> bool) (l : list A) :
  (forall x, In x l -> p x = true -> q x = true) ->
  sublist (List.filter p l) (List.filter q l).
Proof.
  induction l as [|x l IH]; intro H; simpl; [constructor|].
  assert (IH' : sublist (List.filter p l) (List.filter q l))
    by (apply IH; intros y Hy; apply H; right; exact Hy).
  destruct (p x) eqn:Ep.
  - rewrite (H x (or_introl eq_refl) Ep). apply sublist_skip. exact IH'.
  - destruct (q x); [apply sublist_cons|]; exact IH'.
Qed.

Lemma filter_sublist {A : Type} (p : A -> bool) (l : list A) :
  sublist (List.filter p l) l.
Proof.
  induction l as [|x l IH]; simpl; [constructor|].
  destruct (p x); [apply sublist_skip|apply sublist_cons]; exact IH.
Qed.

Lemma find_first {A : Type} (p : A -> bool) (l : list A) x :
  List.find p l = Some x ->
  exists before after,
    l = before ++ x :: after
    /\ p x = true
    /\ forall y, In y before -> p y = false.
Proof.
  induction l as [|a l IH]; simpl; [discriminate|].
  destruct (p a) eqn:Ea.
  - intro H. injection H as <-. exists [], l.
    split; [reflexivity|]. split; [exact Ea|]. intros y [].
  - intro H. destruct (IH H) as (before & after & -> & Hx & Hb).
    exists (a :: before), after.
    split; [reflexivity|]. split; [exact Hx|].
    intros y [<-|Hy]; [exact Ea|apply Hb; exact Hy].
Qed.

(** After [__init__] every reference held refers to an object. *)
Lemma refs_valid_init data loaded : refs_valid (init data loaded).
Proof.
  intros l Hl. simpl in Hl. apply in_seq in Hl. simpl.
  destruct (lookup_lt_is_Some_2 loaded l) as [o Ho]; [lia|].
  exists o. split; [exact Ho|exact I].
Qed.

Lemma find_event_find wanted st :
  forall opps,
    all_refs (fun _ => True) opps st ->
    find_event wanted opps st
    = Some (List.find (has_event_id wanted st) opps, st).
Proof.
  induction opps as [|l opps IH]; intro H; simpl; [reflexivity|].
  destruct (H l (or_introl eq_refl)) as (o & Ho & _).
  unfold bind at 1, deref, lift, has_event_id at 1. rewrite Ho.
  destruct (String.eqb (event_id o) wanted); [reflexivity|].
  apply IH. intros l' Hl'. apply H. right. exact Hl'.
Qed.

Lemma keep_active_shown parse now c st l acc :
  is_Some (opp_store st !! l) ->
  keep_active parse now c l acc st
  = Some (if shown_as_active parse now c st l then acc ++ [l] else acc, st).
Proof.
  intros [o Ho].
  unfold keep_active, shown_as_active, bind, deref, lift. rewrite Ho.
  destruct (String.eqb (o_commence_time o) ""); simpl; [reflexivity|].
  destruct (parse (o_commence_time o)) as [ts|];
    [destruct (now <? ts)%Z|]; simpl;
    destruct c; simpl; try reflexivity;
    destruct (for_cycle o); reflexivity.
Qed.

Lemma keep_cycle_shown st l acc :
  is_Some (opp_store st !! l) ->
  keep_cycle l acc st
  = Some (if with_cycle_info st l then acc ++ [l] else acc, st).
Proof.
  intros [o Ho]. unfold keep_cycle, with_cycle_info, bind, deref, lift.
  rewrite Ho. reflexivity.
Qed.

Lemma active_loop_filter parse now c st :
  refs_valid st ->
  for_each (keep_active parse now c) (opportunities st) [] st
  = Some (List.filter (shown_as_active parse now c st) (opportunities st), st).
Proof.
  intro H.
  apply (for_each_filter (keep_active parse now c)
           (shown_as_active parse now c st) st (opportunities st) []).
  intros l acc Hl. apply keep_active_shown.
  destruct (H l Hl) as (o & Ho & _). exists o. exact Ho.
Qed.

Lemma cycle_loop_filter st :
  refs_valid st ->
  get_cycle_opportunities st
  = Some (List.filter (with_cycle_info st) (opportunities st), st).
Proof.
  intro H. unfold get_cycle_opportunities.
  apply (for_each_filter keep_cycle (with_cycle_info st) st
           (opportunities st) []).
  intros l acc Hl. apply keep_cycle_shown.
  destruct (H l Hl) as (o & Ho & _). exists o. exact Ho.
Qed.

Lemma shown_cycle_only parse now st l :
  shown_as_active parse now true st l = true ->
  shown_as_active parse now false st l = true.
Proof.
  unfold shown_as_active. destruct (opp_store st !! l) as [o|]; [|discriminate].
  simpl. rewrite !andb_true_iff. intros [H _]. split; [exact H|reflexivity].
Qed.

Lemma shown_earlier parse now now' c st l :
  (now <= now')%Z ->
  shown_as_active parse now' c st l = true ->
  shown_as_active parse now c st l = true.
Proof.
  intro Hle. unfold shown_as_active.
  destruct (opp_store st !! l) as [o|]; [|discriminate].
  rewrite !andb_true_iff. intros [[H1 H2] H3].
  split; [split; [exact H1|]|exact H3].
  destruct (parse (o_commence_time o)) as [ts|]; [|reflexivity].
  apply Z.ltb_lt in H2. apply Z.ltb_lt. lia.
Qed.

(** X25.  [get_event_by_id], and [analyze_specific_game] with it, returns
    without changing the analyzer: the first stored record, in the order of
    [self.opportunities], whose [event_id] is the one asked for, or [None]
    when and only when no stored record has it. *)
Theorem get_event_by_id_first_match (wanted : string) (st : State) :
  refs_valid st ->
  exists r,
    get_event_by_id wanted st = Some (r, st)
    /\ analyze_specific_game wanted st = Some (r, st)
    /\ match r with
       | Some l =>
           exists before after,
             opportunities st = before ++ l :: after
             /\ has_event_id wanted st l = true
             /\ forall l', In l' before -> has_event_id wanted st l' = false
       | None =>
           forall l', In l' (opportunities st) ->
                      has_event_id wanted st l' = false
       end.
Proof.
  intro H.
  exists (List.find (has_event_id wanted st) (opportunities st)).
  assert (E : get_event_by_id wanted st
              = Some (List.find (has_event_id wanted st) (opportunities st),
                      st))
    by (unfold get_event_by_id; apply find_event_find; exact H).
  split; [exact E|]. split; [exact E|].
  destruct (List.find (has_event_id wanted st) (opportunities st))
    as [l|] eqn:F.
  - apply find_first. exact F.
  - intros l' Hl'. exact (List.find_none _ _ F l' Hl').
Qed.

Lemma get_event_by_id_first_match_witness :
  refs_valid sample_two_records
  /\ exists r,
       get_event_by_id "e1" sample_two_records = Some (r, sample_two_records)
       /\ analyze_specific_game "e1" sample_two_records
          = Some (r, sample_two_records)
       /\ match r with
          | Some l =>
              exists before after,
                opportunities sample_two_records = before ++ l :: after
                /\ has_event_id "e1" sample_two_records l = true
                /\ forall l', In l' before ->
                              has_event_id "e1" sample_two_records l' = false
          | None =>
              forall l', In l' (opportunities sample_two_records) ->
                         has_event_id "e1" sample_two_records l' = false
          end.
Proof.
  split; [apply refs_valid_init|].
  apply (get_event_by_id_first_match "e1" sample_two_records).
  apply refs_valid_init.
Defined.

(** X26.  [get_active_opportunities] returns without changing the
    analyzer, and its result is, in the stored order, the records whose
    [commence_time] is not empty and either cannot be read or lies strictly
    after the clock, restricted under [cycle_only] to those with
    [potential_cycle] or a [cycle_info] key. *)
Theorem get_active_opportunities_is_filter (parse : string -> option Z)
    (now : Z) (cycle_only : bool) (st : State) :
  refs_valid st ->
  get_active_opportunities parse now cycle_only st
  = Some (List.filter (shown_as_active parse now cycle_only st)
            (opportunities st), st).
Proof.
  intro H. unfold get_active_opportunities.
  apply active_loop_filter. exact H.
Qed.

Lemma get_active_opportunities_is_filter_witness :
  refs_valid sample_two_records
  /\ get_active_opportunities sample_parse 0 false sample_two_records
     = Some (List.filter (shown_as_active sample_parse 0 false
                            sample_two_records)
               (opportunities sample_two_records), sample_two_records).
Proof.
  split; [apply refs_valid_init|].
  apply (get_active_opportunities_is_filter sample_parse 0 false
           sample_two_records).
  apply refs_valid_init.
Defined.

(** X27.  Whatever its two flags, [TradingAgent.get_opportunities] returns
    without changing the analyzer, and what it returns is a sub-list of
    [self.opportunities]: stored records only, in the stored order, none
    twice as often as stored. *)
Theorem get_opportunities_sublist (parse : string -> option Z) (now : Z)
    (active_only cycle_only : bool) (st : State) :
  refs_valid st ->
  exists res,
    get_opportunities parse now active_only cycle_only st = Some (res, st)
    /\ sublist res (opportunities st).
Proof.
  intro H. unfold get_opportunities.
  destruct cycle_only, active_only.
  - eexists. split; [apply active_loop_filter; exact H|apply filter_sublist].
  - eexists. split; [apply cycle_loop_filter; exact H|apply filter_sublist].
  - eexists. split; [apply active_loop_filter; exact H|apply filter_sublist].
  - eexists. split; [reflexivity|reflexivity].
Qed.

Lemma get_opportunities_sublist_witness :
  refs_valid sample_two_records
  /\ exists res,
       get_opportunities sample_parse 0 true true sample_two_records
       = Some (res, sample_two_records)
       /\ sublist res (opportunities sample_two_records).
Proof.
  split; [apply refs_valid_init|].
  apply (get_opportunities_sublist sample_parse 0 true true
           sample_two_records).
  apply refs_valid_init.
Defined.

(** X28.  The two cycle queries of [get_opportunities] use different
    tests: a stored record marked [potential_cycle] that has no
    [cycle_info] key and has not started is returned when [active_only]
    and [cycle_only] are both set, and is not returned when only
    [cycle_only] is. *)
Theorem active_cycle_query_beyond_cycle_query (parse : string -> option Z)
    (now : Z) (st : State) (l : loc) (o : Opportunity) :
  refs_valid st ->
  In l (opportunities st) ->
  opp_store st !! l = Some o ->
  potential_cycle o = true ->
  cycle_info o = None ->
  shown_as_active parse now false st l = true ->
  exists active_cycle cycle,
    get_opportunities parse now true true st = Some (active_cycle, st)
    /\ get_opportunities parse now false true st = Some (cycle, st)
    /\ In l active_cycle
    /\ ~ In l cycle.
Proof.
  intros H Hl Ho Hp Hc Hs.
  exists (List.filter (shown_as_active parse now true st) (opportunities st)),
         (List.filter (with_cycle_info st) (opportunities st)).
  split; [apply active_loop_filter; exact H|].
  split; [apply cycle_loop_filter; exact H|].
  split.
  - apply filter_In. split; [exact Hl|].
    revert Hs. unfold shown_as_active, for_cycle. rewrite Ho, Hp.
    rewrite !andb_true_iff. intros [Hs _]. split; [exact Hs|reflexivity].
  - intro Hin. apply filter_In in Hin. destruct Hin as [_ Hin].
    unfold with_cycle_info, has_cycle_info in Hin. rewrite Ho, Hc in Hin.
    discriminate.
Qed.

Lemma active_cycle_query_beyond_cycle_query_witness :
  (refs_valid sample_two_records
   /\ In 0%nat (opportunities sample_two_records)
   /\ opp_store sample_two_records !! 0%nat = Some sample_opportunity
   /\ potential_cycle sample_opportunity = true
   /\ cycle_info sample_opportunity = None
   /\ shown_as_active sample_parse 0 false sample_two_records 0%nat = true)
  /\ exists active_cycle cycle,
       get_opportunities sample_parse 0 true true sample_two_records
       = Some (active_cycle, sample_two_records)
       /\ get_opportunities sample_parse 0 false true sample_two_records
          = Some (cycle, sample_two_records)
       /\ In 0%nat active_cycle
       /\ ~ In 0%nat cycle.
Proof.
  assert (Hin : In 0%nat (opportunities sample_two_records))
    by (left; reflexivity).
  split.
  - split; [apply refs_valid_init|]. split; [exact Hin|].
    split; [reflexivity|]. split; [reflexivity|].
    split; [reflexivity|reflexivity].
  - apply (active_cycle_query_beyond_cycle_query sample_parse 0
             sample_two_records 0%nat sample_opportunity).
    + apply refs_valid_init.
    + exact Hin.
    + reflexivity.
    + reflexivity.
    + reflexivity.
    + reflexivity.
Defined.

(** X29.  As the clock advances the active list only loses records: the
    result of [get_active_opportunities] at a later time is a sub-list of
    its result at an earlier time on the same analyzer. *)
Theorem active_opportunities_shrink_with_time (parse : string -> option Z)
    (now now' : Z) (cycle_only : bool) (st : State) :
  refs_valid st ->
  (now <= now')%Z ->
  exists earlier later,
    get_active_opportunities parse now cycle_only st = Some (earlier, st)
    /\ get_active_opportunities parse now' cycle_only st = Some (later, st)
    /\ sublist later earlier.
Proof.
  intros H Hle.
  exists (List.filter (shown_as_active parse now cycle_only st)
            (opportunities st)),
         (List.filter (shown_as_active parse now' cycle_only st)
            (opportunities st)).
  split; [apply active_loop_filter; exact H|].
  split; [apply active_loop_filter; exact H|].
  apply filter_sublist_mono. intros l _. apply shown_earlier. exact Hle.
Qed.

Lemma active_opportunities_shrink_with_time_witness :
  (refs_valid sample_two_records /\ (0 <= 1767225600)%Z)
  /\ exists earlier later,
       get_active_opportunities sample_parse 0 false sample_two_records
       = Some (earlier, sample_two_records)
       /\ get_active_opportunities sample_parse 1767225600 false
            sample_two_records
          = Some (later, sample_two_records)
       /\ sublist later earlier.
Proof.
  split.
  - split; [apply refs_valid_init|lia].
  - apply (active_opportunities_shrink_with_time sample_parse 0 1767225600
             false sample_two_records).
    + apply refs_valid_init.
    + lia.
Defined.

(** X30.  After a full pass every query is empty-handed: whatever the feed,
    the clock and the flags, [get_opportunities] returns the empty list and
    [get_event_by_id] returns [None] for every id. *)
Theorem queries_after_pass_find_nothing (parse : string -> option Z)
    (now now' : Z) (active_only cycle_only : bool) (wanted : string)
    (st : State) :
  exists st',
    analyze_back_lay_opportunities now st = Some ([], st')
    /\ get_opportunities parse now' active_only cycle_only st'
       = Some ([], st')
    /\ get_event_by_id wanted st' = Some (None, st')
    /\ analyze_specific_game wanted st' = Some (None, st').
Proof.
  exists (with_opportunities [] st).
  split; [apply analyze_back_lay_opportunities_nothing|].
  split; [destruct cycle_only, active_only; reflexivity|].
  split; reflexivity.
Qed.

End QueryProperties.
